(** * CompactionBasedInputProcessor: a shallow embedding

    Source: fbpcs/emp_games/lift/pcf2_calculator/input_processing/
            CompactionBasedInputProcessor_impl.h

    The C++ member functions are embedded as Rocq functions.  Fixed-width
    integers are values of [Z] with the wrap-around written out, vectors are
    lists accessed with stdpp's lookup and insert, an access outside a vector
    (undefined behaviour for [operator[]], [std::out_of_range] for [at]) makes
    the embedded function return [None]. *)

From Stdlib Require Import ZArith Lia.
From stdpp Require Import base option list strings pretty.

Local Open Scope Z_scope.

(** ** Fixed-width integers *)

Module MachineInt.

Definition UINT32_MOD : Z := 2 ^ 32.
Definition UINT64_MOD : Z := 2 ^ 64.
Definition INT32_MAX : Z := 2 ^ 31 - 1.
Definition INT32_MIN : Z := - 2 ^ 31.
Definition INT64_MAX : Z := 2 ^ 63 - 1.
Definition INT64_MIN : Z := - 2 ^ 63.

(** Conversion to an unsigned [w]-bit type. *)
Definition wrap_unsigned (w : Z) (x : Z) : Z := x mod 2 ^ w.

(** Conversion to a signed [w]-bit type (two's complement). *)
Definition wrap_signed (w : Z) (x : Z) : Z :=
  (x + 2 ^ (w - 1)) mod 2 ^ w - 2 ^ (w - 1).

Definition to_uint32 : Z -> Z := wrap_unsigned 32.
Definition to_int32 : Z -> Z := wrap_signed 32.
Definition to_int64 : Z -> Z := wrap_signed 64.
Definition to_uint8 : Z -> Z := wrap_unsigned 8.

Definition is_uint8 (x : Z) : Prop := 0 <= x < 256.
Definition is_uint32 (x : Z) : Prop := 0 <= x < UINT32_MOD.
Definition is_int32 (x : Z) : Prop := INT32_MIN <= x <= INT32_MAX.
Definition is_int64 (x : Z) : Prop := INT64_MIN <= x <= INT64_MAX.

(** The integer value of a C++ [bool]. *)
Definition Z_of_bool (b : bool) : Z := if b then 1 else 0.

End MachineInt.
Import MachineInt.

(** Unfold the integer types and their bounds down to numerals. *)
Ltac int_consts :=
  unfold is_uint8, is_uint32, is_int32, is_int64, to_uint8, to_uint32,
    to_int32, to_int64, wrap_unsigned, wrap_signed, UINT32_MOD, UINT64_MOD,
    INT32_MAX, INT32_MIN, INT64_MAX, INT64_MIN in *;
  change (2 ^ 8) with 256 in *;
  change (2 ^ (32 - 1)) with 2147483648 in *;
  change (2 ^ 31) with 2147483648 in *;
  change (2 ^ 32) with 4294967296 in *;
  change (2 ^ (64 - 1)) with 9223372036854775808 in *;
  change (2 ^ 63) with 9223372036854775808 in *;
  change (2 ^ 64) with 18446744073709551616 in *.

(** ** Loops *)

(** A [for] loop whose body may fail: the body is run for each index in
    turn, threading the loop state. *)
Fixpoint for_each {St I : Type} (body : St -> I -> option St)
    (indices : list I) (st : St) : option St :=
  match indices with
  | [] => Some st
  | i :: rest => st' ← body st i; for_each body rest st'
  end.

(** ** The dataset and the processor's configuration *)

Inductive Role : Set := PUBLISHER | PARTNER.

#[global] Instance Role_eq_dec : EqDecision Role.
Proof. solve_decision. Defined.

(** The columns of [inputData_] read by the processor.  [uint32_t] and
    [int64_t] cells are integers, [bool] cells are booleans. *)
Record InputData : Type := {
  getNumRows : nat;
  getDummyRows : list bool;
  getGroupIds : list Z;
  getPurchaseTimestampArrays : list (list Z);
  getPurchaseValueArrays : list (list Z);
  getPurchaseValueSquaredArrays : list (list Z);
  getOpportunityTimestamps : list Z;
  getControlPopulation : list bool;
  getTestPopulation : list bool;
  getNumImpressions : list Z;
  getBreakdownIds : list Z
}.

(** The row structs.  Their declarations are in
    CompactionBasedInputProcessor.h; the field types are those of section 3
    of the specification, which the casts in [preparePlaintextData]
    ([(bool)breakdownId], [(int32_t)purchaseValue]) agree with. *)
Record PublisherRow : Type := {
  breakdownId : bool;
  controlPopulation : bool;
  isValidOpportunityTimestamp : bool;
  testReach : bool;
  opportunityTimestamp : Z
}.

Record PartnerRow : Type := {
  anyValidPurchaseTimestamp : bool;
  cohortGroupId : Z
}.

Record PartnerConversionRow : Type := {
  purchaseTimestamp : Z;
  thresholdTimestamp : Z;
  purchaseValue : Z;
  purchaseValueSquared : Z
}.

(** ** Helpers declared outside the translated file *)

Module Helpers.

(** Modelled from the spec: the byte sizes [PUBLISHER_ROW_BYTES],
    [PARTNER_ROW_SIZE_BYTES] and [PARTNER_CONVERSION_ROW_SIZE_BYTES] are
    declared in CompactionBasedInputProcessor.h.  Section 4.3 gives the
    publisher row 1 + 4 bytes, the partner row 1 + 4 bytes and each
    conversion block 4 + 4 + 4 + 8 bytes. *)
Definition PUBLISHER_ROW_BYTES : nat := 5.
Definition PARTNER_ROW_SIZE_BYTES : nat := 5.
Definition PARTNER_CONVERSION_ROW_SIZE_BYTES : nat := 20.

(** Modelled from the spec: [extractByte(val, byte)] is declared in
    CompactionBasedInputProcessor.h.  Section 4.3 encodes every integer
    field byte by byte, little-endian: byte [byte] of [val] is bits
    [8*byte .. 8*byte+7] of its two's complement representation. *)
Definition extractByte (val : Z) (byte : nat) : Z :=
  Z.land (Z.shiftr val (8 * Z.of_nat byte)) 255.

(** The integer types [reconstructFromBytes] is instantiated at. *)
Inductive IntType : Set := UInt32 | Int32 | Int64.

Definition sizeof (T : IntType) : nat :=
  match T with UInt32 | Int32 => 4%nat | Int64 => 8%nat end.

Definition convert (T : IntType) (x : Z) : Z :=
  match T with
  | UInt32 => to_uint32 x
  | Int32 => to_int32 x
  | Int64 => to_int64 x
  end.

(** The values of type [T]. *)
Definition inRange (T : IntType) (x : Z) : Prop :=
  match T with
  | UInt32 => is_uint32 x
  | Int32 => is_int32 x
  | Int64 => is_int64 x
  end.

(** Modelled from the spec: [reconstructFromBytes<T>(data)] is declared in
    CompactionBasedInputProcessor.h.  Sections 4.3 and 4.5 make it the
    inverse of the byte-by-byte encoding: the [sizeof(T)] bytes starting at
    [data] are packed little-endian into a [T].  [offset] is the position
    of [data] in the buffer; reading past the buffer is undefined. *)
Definition reconstructFromBytes (T : IntType) (buffer : list Z)
    (offset : nat) : option Z :=
  convert T <$>
    for_each
      (λ val i, b ← buffer !! (offset + i)%nat;
                Some (Z.lor val (Z.shiftl b (8 * Z.of_nat i))))
      (seq 0 (sizeof T)) 0.

(** Modelled from the spec: [common::padArray] is declared outside the
    translated file.  Section 4.4 step 3: arrays are padded to the
    dataset's row capacity with a fixed pad value. *)
Definition padArray {T : Type} (array : list T) (size : nat) (padValue : T)
    : list T :=
  resize size padValue array.

(** Modelled from the spec: [common::padNestedArrays] is declared outside
    the translated file.  Every inner array is padded to [innerSize] and
    the outer array to [outerSize] rows of pad values. *)
Definition padNestedArrays {T : Type} (arrays : list (list T))
    (outerSize innerSize : nat) (padValue : T) : list (list T) :=
  resize outerSize (replicate innerSize padValue)
    ((λ a, resize innerSize padValue a) <$> arrays).

End Helpers.
Import Helpers.

(** ** shuffleAndGetUnionMap *)

Module Shuffle.

(** Loop state: the map under construction and the counter
    [nonDummyRows]. *)
Definition state : Type := list Z * Z.

(** The assignment of the loop body, [p] being [randomPermutation[i]]:
    [unionMap[p] = dummyRows[p] ? -1 : nonDummyRows++]. *)
Definition assign (dummyRows : list bool) (st : state) (p : nat)
    : option state :=
  let '(unionMap, nonDummyRows) := st in
  d ← dummyRows !! p;
  if decide (p < length unionMap)%nat then
    if (d : bool) then Some (<[p := -1]> unionMap, nonDummyRows)
    else Some (<[p := nonDummyRows]> unionMap, to_int32 (nonDummyRows + 1))
  else None.

(** One iteration of the loop, for index [i]. *)
Definition step (randomPermutation : list nat) (dummyRows : list bool)
    (st : state) (i : nat) : option state :=
  p ← randomPermutation !! i;
  assign dummyRows st p.

(** [unionSize] is [inputData_.getNumRows()], [randomPermutation] the
    vector returned by [secureRandomPermutation(unionSize, prg)] and
    [dummyRows] is [inputData_.getDummyRows()]. *)
Definition shuffleAndGetUnionMap (unionSize : nat)
    (randomPermutation : list nat) (dummyRows : list bool)
    : option (list Z) :=
  fst <$> for_each (step randomPermutation dummyRows) (seq 0 unionSize)
                   (replicate unionSize 0, 0).

(** The number of rows flagged as padding. *)
Definition numDummy (dummyRows : list bool) : nat :=
  length (filter (λ b, b = true) dummyRows).

(** The entries of a map that are not the sentinel. *)
Definition nonSentinel (unionMap : list Z) : list Z :=
  filter (λ v, v ≠ -1) unionMap.

(** Row [p] is not flagged as padding. *)
Definition notDummy (dummyRows : list bool) (p : nat) : Prop :=
  dummyRows !! p = Some false.

#[global] Instance notDummy_dec dummyRows p : Decision (notDummy dummyRows p).
Proof. unfold notDummy. apply _. Defined.

End Shuffle.

(** ** preparePlaintextData *)

Module Encode.

(** [serialized[index] = value] on a [std::vector<unsigned char>].  Every
    buffer below is allocated with the size its writes need, so no write is
    out of range: [serializePublisher_layout] and [serializePartner_layout]
    account for every byte of the buffers. *)
Definition store (serialized : list Z) (index : nat) (value : Z) : list Z :=
  <[index := to_uint8 value]> serialized.

(** The first loop: invert the union map and find the largest compacted
    index.  State: [reverseUnionMap] and [inputSize]. *)
Definition reverseStep (unionMap : list Z) (st : list Z * Z) (i : nat)
    : option (list Z * Z) :=
  let '(reverseUnionMap, inputSize) := st in
  u ← unionMap !! i;
  if (0 <=? u) then
    if decide (Z.to_nat u < length reverseUnionMap)%nat then
      Some (<[Z.to_nat u := Z.of_nat i]> reverseUnionMap, Z.max inputSize u)
    else None
  else Some st.

(** [reverseUnionMap] after [resize(inputSize)], with [inputSize] already
    incremented.  A negative [inputSize] (signed overflow of the increment)
    would ask for a vector larger than memory. *)
Definition reverseUnionMapOf (numRows : nat) (unionMap : list Z)
    : option (list Z) :=
  '(reverseUnionMap, inputSize) ←
    for_each (reverseStep unionMap) (seq 0 (length unionMap))
             (replicate numRows 0, 0);
  let inputSize := to_int32 (inputSize + 1) in
  if (inputSize <? 0) then None
  else Some (resize (Z.to_nat inputSize) 0 reverseUnionMap).

Section Rows.

(** [numConversionsPerUser_], and the constant
    [kPurchaseTimestampThresholdWindow], which is declared outside the
    translated file and is kept as a parameter. *)
Variable numConversionsPerUser : nat.
Variable kPurchaseTimestampThresholdWindow : Z.

(** The [thresholdTimestamp] initialiser.  The sum is stored in a
    [uint32_t] field, so whatever the integer type of the window the stored
    value is the sum modulo 2^32. *)
Definition thresholdTimestampOf (purchaseTs : Z) : Z :=
  if (0 <? purchaseTs)
  then to_uint32 (purchaseTs + kPurchaseTimestampThresholdWindow)
  else 0.

(** [anyValidPurchaseTimestamp |= (purchaseTs > 0)] over a padded row. *)
Definition anyValidPurchaseTimestampOf (purchaseTimestamps : list Z) : bool :=
  foldl (λ acc purchaseTs, acc || (0 <? purchaseTs)) false purchaseTimestamps.

(** [rowConversions[j]] for the dataset row [inputIndex]. *)
Definition conversionRowAt (purchaseTimestampsPadded purchaseValuesPadded
    purchaseValuesSquaredPadded : list (list Z)) (inputIndex j : nat)
    : option PartnerConversionRow :=
  ts ← (purchaseTimestampsPadded !! inputIndex) ≫= (.!! j);
  v ← (purchaseValuesPadded !! inputIndex) ≫= (.!! j);
  sq ← (purchaseValuesSquaredPadded !! inputIndex) ≫= (.!! j);
  Some {| purchaseTimestamp := ts;
          thresholdTimestamp := thresholdTimestampOf ts;
          purchaseValue := to_int32 v;
          purchaseValueSquared := sq |}.

(** The partner structs built for the dataset row [inputIndex]. *)
Definition partnerRowAt (d : InputData) (inputIndex : nat)
    : option (PartnerRow * list PartnerConversionRow) :=
  let unionSize := getNumRows d in
  let cohortIdsPadded := padArray (getGroupIds d) unionSize 0 in
  let purchaseTimestampsPadded :=
    padNestedArrays (getPurchaseTimestampArrays d) unionSize
                    numConversionsPerUser 0 in
  let purchaseValuesPadded :=
    padNestedArrays (getPurchaseValueArrays d) unionSize
                    numConversionsPerUser 0 in
  let purchaseValuesSquaredPadded :=
    padNestedArrays (getPurchaseValueSquaredArrays d) unionSize
                    numConversionsPerUser 0 in
  purchaseTimestamps ← purchaseTimestampsPadded !! inputIndex;
  cohort ← cohortIdsPadded !! inputIndex;
  rowConversions ←
    mapM (conversionRowAt purchaseTimestampsPadded purchaseValuesPadded
            purchaseValuesSquaredPadded inputIndex)
         (seq 0 numConversionsPerUser);
  Some ({| anyValidPurchaseTimestamp :=
             anyValidPurchaseTimestampOf purchaseTimestamps;
           cohortGroupId := cohort |}, rowConversions).

(** The writes of one conversion block, [j] being the conversion index. *)
Definition writeConversion (j : nat) (c : PartnerConversionRow)
    (serialized : list Z) : list Z :=
  let base := (j * PARTNER_CONVERSION_ROW_SIZE_BYTES)%nat in
  let serialized :=
    foldl (λ s byte,
             let s := store s (5 + base + byte)
                        (extractByte (purchaseTimestamp c) byte) in
             let s := store s (9 + base + byte)
                        (extractByte (thresholdTimestamp c) byte) in
             store s (13 + base + byte) (extractByte (purchaseValue c) byte))
          serialized (seq 0 4) in
  foldl (λ s byte,
           store s (17 + base + byte)
             (extractByte (purchaseValueSquared c) byte))
        serialized (seq 0 8).

(** Serialisation of a partner row and its conversions. *)
Definition serializePartner (partnerRow : PartnerRow)
    (rowConversions : list PartnerConversionRow) : option (list Z) :=
  let serialized :=
    replicate (PARTNER_ROW_SIZE_BYTES +
               PARTNER_CONVERSION_ROW_SIZE_BYTES * numConversionsPerUser) 0 in
  let serialized :=
    store serialized 0 (Z_of_bool (anyValidPurchaseTimestamp partnerRow)) in
  let serialized := store serialized 1 (extractByte (cohortGroupId partnerRow) 0) in
  let serialized := store serialized 2 (extractByte (cohortGroupId partnerRow) 1) in
  let serialized := store serialized 3 (extractByte (cohortGroupId partnerRow) 2) in
  let serialized := store serialized 4 (extractByte (cohortGroupId partnerRow) 3) in
  for_each (λ s j, c ← rowConversions !! j; Some (writeConversion j c s))
           (seq 0 numConversionsPerUser) serialized.

(** The publisher struct built for the dataset row [inputIndex]. *)
Definition publisherRowAt (d : InputData) (inputIndex : nat)
    : option PublisherRow :=
  let unionSize := getNumRows d in
  let opportunityTimestampsPadded :=
    padArray (getOpportunityTimestamps d) unionSize 0 in
  let controlPopulationPadded :=
    padArray (getControlPopulation d) unionSize false in
  let testPopulationPadded := padArray (getTestPopulation d) unionSize false in
  let numImpressionsPadded := padArray (getNumImpressions d) unionSize 0 in
  let breakdownIdPadded := padArray (getBreakdownIds d) unionSize 0 in
  ts ← opportunityTimestampsPadded !! inputIndex;
  control ← controlPopulationPadded !! inputIndex;
  test ← testPopulationPadded !! inputIndex;
  impressions ← numImpressionsPadded !! inputIndex;
  breakdown ← breakdownIdPadded !! inputIndex;
  Some {| breakdownId := negb (breakdown =? 0);
          controlPopulation := control;
          isValidOpportunityTimestamp := (0 <? ts) && (control || test);
          testReach := test && (0 <? impressions);
          opportunityTimestamp := ts |}.

(** Serialisation of a publisher row. *)
Definition serializePublisher (publisherRow : PublisherRow) : list Z :=
  let serialized := replicate PUBLISHER_ROW_BYTES 0 in
  let serialized :=
    store serialized 0
      (Z.lor (Z.lor (Z.lor
         (Z_of_bool (breakdownId publisherRow))
         (Z.shiftl (Z_of_bool (controlPopulation publisherRow)) 1))
         (Z.shiftl (Z_of_bool (isValidOpportunityTimestamp publisherRow)) 2))
         (Z.shiftl (Z_of_bool (testReach publisherRow)) 3)) in
  foldl (λ s byte,
           store s (1 + byte)
             (extractByte (opportunityTimestamp publisherRow) byte))
        serialized (seq 0 4).

(** One iteration of the row loop: [rst.push_back(serialized)] for the
    compacted position holding [inputIndex]. *)
Definition encodeAt (myRole : Role) (d : InputData) (inputIndex : Z)
    : option (list Z) :=
  match myRole with
  | PARTNER =>
      '(partnerRow, rowConversions) ← partnerRowAt d (Z.to_nat inputIndex);
      serializePartner partnerRow rowConversions
  | PUBLISHER =>
      serializePublisher <$> publisherRowAt d (Z.to_nat inputIndex)
  end.

Definition preparePlaintextData (myRole : Role) (d : InputData)
    (unionMap : list Z) : option (list (list Z)) :=
  reverseUnionMap ← reverseUnionMapOf (getNumRows d) unionMap;
  mapM (encodeAt myRole d) reverseUnionMap.

End Rows.

End Encode.

(** ** deserializeSecretSharedData *)

Module Decode.

(** Conversion of an integer expression to [bool]. *)
Definition bool_of_Z (x : Z) : bool := negb (x =? 0).

(** The publisher fields read from [publisherByteShares], the bytes
    [convertFromBits] returns for one row. *)
Definition decodePublisherRow (publisherByteShares : list Z)
    : option PublisherRow :=
  flags ← publisherByteShares !! 0%nat;
  ts ← reconstructFromBytes UInt32 publisherByteShares 1;
  Some {| breakdownId := bool_of_Z (Z.land flags 1);
          controlPopulation := bool_of_Z (Z.land (Z.shiftr flags 1) 1);
          isValidOpportunityTimestamp :=
            bool_of_Z (Z.land (Z.shiftr flags 2) 1);
          testReach := bool_of_Z (Z.land (Z.shiftr flags 3) 1);
          opportunityTimestamp := ts |}.

(** [partnerConversionRows[i][j]], read from [partnerByteShares]. *)
Definition decodeConversionRow (partnerByteShares : list Z) (j : nat)
    : option PartnerConversionRow :=
  let base := (j * PARTNER_CONVERSION_ROW_SIZE_BYTES)%nat in
  ts ← reconstructFromBytes UInt32 partnerByteShares (5 + base);
  threshold ← reconstructFromBytes UInt32 partnerByteShares (9 + base);
  v ← reconstructFromBytes Int32 partnerByteShares (13 + base);
  sq ← reconstructFromBytes Int64 partnerByteShares (17 + base);
  Some {| purchaseTimestamp := ts;
          thresholdTimestamp := threshold;
          purchaseValue := v;
          purchaseValueSquared := sq |}.

(** The partner fields and conversions read from [partnerByteShares]. *)
Definition decodePartnerRow (numConversionsPerUser : nat)
    (partnerByteShares : list Z)
    : option (PartnerRow * list PartnerConversionRow) :=
  flag ← partnerByteShares !! 0%nat;
  cohort ← reconstructFromBytes UInt32 partnerByteShares 1;
  rowConversions ←
    mapM (decodeConversionRow partnerByteShares) (seq 0 numConversionsPerUser);
  Some ({| anyValidPurchaseTimestamp := bool_of_Z (Z.land flag 1);
           cohortGroupId := cohort |}, rowConversions).

(** The loop over the [numRows] rows.  [publisherBytes] and [partnerBytes]
    hold, per row, the bytes of the transposed bit shares; [at(i)] throws
    when a row is missing. *)
Definition deserializeSecretSharedData (numRows numConversionsPerUser : nat)
    (publisherBytes partnerBytes : list (list Z))
    : option (list PartnerRow * list (list PartnerConversionRow) *
              list PublisherRow) :=
  rows ←
    mapM (λ i, publisherByteShares ← publisherBytes !! i;
               partnerByteShares ← partnerBytes !! i;
               publisherRow ← decodePublisherRow publisherByteShares;
               partner ← decodePartnerRow numConversionsPerUser
                           partnerByteShares;
               Some (partner, publisherRow))
         (seq 0 numRows);
  Some (fst <$> (fst <$> rows), snd <$> (fst <$> rows), snd <$> rows).

End Decode.

(** ** Rows of either role *)

Inductive Row : Type :=
  | RowOfPublisher (r : PublisherRow)
  | RowOfPartner (r : PartnerRow) (conversions : list PartnerConversionRow).

Definition roleOf (r : Row) : Role :=
  match r with RowOfPublisher _ => PUBLISHER | RowOfPartner _ _ => PARTNER end.

Definition encodeRow (numConversionsPerUser : nat) (r : Row)
    : option (list Z) :=
  match r with
  | RowOfPublisher p => Some (Encode.serializePublisher p)
  | RowOfPartner p cs => Encode.serializePartner numConversionsPerUser p cs
  end.

Definition decodeRow (myRole : Role) (numConversionsPerUser : nat)
    (bytes : list Z) : option Row :=
  match myRole with
  | PUBLISHER => RowOfPublisher <$> Decode.decodePublisherRow bytes
  | PARTNER =>
      (λ pc, RowOfPartner pc.1 pc.2) <$>
        Decode.decodePartnerRow numConversionsPerUser bytes
  end.

(** A row whose fields hold values of their declared types, with one
    conversion per slot. *)
Definition conversionInRange (c : PartnerConversionRow) : Prop :=
  is_uint32 (purchaseTimestamp c) ∧ is_uint32 (thresholdTimestamp c) ∧
  is_int32 (purchaseValue c) ∧ is_int64 (purchaseValueSquared c).

Definition rowInRange (numConversionsPerUser : nat) (r : Row) : Prop :=
  match r with
  | RowOfPublisher p => is_uint32 (opportunityTimestamp p)
  | RowOfPartner p cs =>
      is_uint32 (cohortGroupId p) ∧ length cs = numConversionsPerUser ∧
      Forall conversionInRange cs
  end.

(** A dataset whose cells hold values of their column types. *)
Definition datasetInRange (d : InputData) : Prop :=
  Forall is_uint32 (getGroupIds d)
  ∧ Forall (Forall is_uint32) (getPurchaseTimestampArrays d)
  ∧ Forall (Forall is_int64) (getPurchaseValueSquaredArrays d)
  ∧ Forall is_uint32 (getOpportunityTimestamps d).

(** ** compactData *)

Module Compact.

(** What a call does: it returns or it throws [std::runtime_error]. *)
Inductive outcome (A : Type) : Type :=
  | Returns (a : A)
  | Throws (what : string).
Arguments Returns {A} a.
Arguments Throws {A} what.

(** The calls made on the collaborators, in order. *)
Inductive Event : Type :=
  | ShareIntFrom (sender receiver : Role) (value : Z)
  | ProcessMyData (plaintextData : list (list Z)) (outputSize : Z)
  | ProcessPeersData (dataSize : Z) (indexes : list Z) (dataWidth : Z).

(** Computations that call collaborators and may throw. *)
Definition M (A : Type) : Type := list Event -> outcome A * list Event.

#[global] Instance M_ret : MRet M := λ A a trace, (Returns a, trace).
#[global] Instance M_bind : MBind M := λ A B f m trace,
  match m trace with
  | (Returns a, trace') => f a trace'
  | (Throws what, trace') => (Throws what, trace')
  end.

Definition throw {A : Type} (what : string) : M A :=
  λ trace, (Throws what, trace).

(** Record a call, then give its outcome. *)
Definition call {A : Type} (e : Event) (result : outcome A) : M A :=
  λ trace, (result, trace ++ [e]).

(** The collaborators of [compactData]: the secret-share type, the
    integer-sharing helper and the data processor [dataProcessor_]. *)
Class Collaborators (SecString : Type) : Type := {
  getBatchSize : SecString -> Z;
  shareIntFrom : Role -> Role -> Role -> Z -> Z;
  processMyData : list (list Z) -> Z -> outcome SecString;
  processPeersData : Z -> list Z -> Z -> outcome SecString
}.

(** [std::transform_reduce] with [ele == -1 ? 0 : 1] and the sum of two
    [int]s. *)
Definition expectedIntersectionSizeOf (intersectionMap : list Z) : Z :=
  foldl (λ left ele, to_int32 (left + (if decide (ele = -1) then 0 else 1)))
        0 intersectionMap.

(** [folly::sformat] of the two messages. *)
Definition mismatchMessage (party : string) (expected actual : Z) : string :=
  party +:+ " rows do not match up expected intersection size. Expected "
        +:+ pretty expected +:+ " but got " +:+ pretty actual +:+ " rows.".

Section CompactData.

Context {SecString : Type} {collaborators : Collaborators SecString}.
Variable myRole : Role.
Variable numConversionsPerUser : nat.

Definition partnerRowWidth : Z :=
  Z.of_nat (PARTNER_CONVERSION_ROW_SIZE_BYTES * numConversionsPerUser +
            PARTNER_ROW_SIZE_BYTES).

Definition compactData (intersectionMap : list Z)
    (plaintextData : list (list Z)) : M (SecString * SecString) :=
  let myRows := to_int32 (Z.of_nat (length plaintextData)) in
  publisherRows ←
    call (ShareIntFrom PUBLISHER PARTNER myRows)
         (Returns (shareIntFrom PUBLISHER PARTNER myRole myRows));
  partnerRows ←
    call (ShareIntFrom PARTNER PUBLISHER myRows)
         (Returns (shareIntFrom PARTNER PUBLISHER myRole myRows));
  shares ←
    match myRole with
    | PUBLISHER =>
        let outputSize := Z.of_nat (length intersectionMap) in
        publisherDataShares ←
          call (ProcessMyData plaintextData outputSize)
               (processMyData plaintextData outputSize);
        partnerDataShares ←
          call (ProcessPeersData partnerRows intersectionMap partnerRowWidth)
               (processPeersData partnerRows intersectionMap partnerRowWidth);
        mret (publisherDataShares, partnerDataShares)
    | PARTNER =>
        let outputSize := Z.of_nat (length intersectionMap) in
        publisherDataShares ←
          call (ProcessPeersData publisherRows intersectionMap
                  (Z.of_nat PUBLISHER_ROW_BYTES))
               (processPeersData publisherRows intersectionMap
                  (Z.of_nat PUBLISHER_ROW_BYTES));
        partnerDataShares ←
          call (ProcessMyData plaintextData outputSize)
               (processMyData plaintextData outputSize);
        mret (publisherDataShares, partnerDataShares)
    end;
  let '(publisherDataShares, partnerDataShares) := shares in
  let expectedIntersectionSize := expectedIntersectionSizeOf intersectionMap in
  if decide (wrap_unsigned 64 expectedIntersectionSize ≠
             getBatchSize publisherDataShares) then
    throw (mismatchMessage "Publisher" expectedIntersectionSize
             (getBatchSize publisherDataShares))
  else if decide (wrap_unsigned 64 expectedIntersectionSize ≠
                  getBatchSize partnerDataShares) then
    throw (mismatchMessage "Partner" expectedIntersectionSize
             (getBatchSize partnerDataShares))
  else mret (publisherDataShares, partnerDataShares).

(** Both calls on the data processor return, with these share buffers. *)
Definition exchangerReturns (intersectionMap : list Z)
    (plaintextData : list (list Z))
    (publisherDataShares partnerDataShares : SecString) : Prop :=
  let myRows := to_int32 (Z.of_nat (length plaintextData)) in
  let outputSize := Z.of_nat (length intersectionMap) in
  match myRole with
  | PUBLISHER =>
      processMyData plaintextData outputSize = Returns publisherDataShares
      ∧ processPeersData (shareIntFrom PARTNER PUBLISHER myRole myRows)
          intersectionMap partnerRowWidth = Returns partnerDataShares
  | PARTNER =>
      processPeersData (shareIntFrom PUBLISHER PARTNER myRole myRows)
        intersectionMap (Z.of_nat PUBLISHER_ROW_BYTES)
        = Returns publisherDataShares
      ∧ processMyData plaintextData outputSize = Returns partnerDataShares
  end.

End CompactData.

(** The number of entries of a map that are not -1. *)
Definition matchedCount (intersectionMap : list Z) : Z :=
  Z.of_nat (length (filter (λ ele, ele ≠ -1) intersectionMap)).

(** The [outputSize] arguments of the [processMyData] calls of a trace. *)
Definition processMyDataSizes (trace : list Event) : list Z :=
  omap (λ e, match e with ProcessMyData _ n => Some n | _ => None end) trace.

(** A data processor that returns as many rows as it is asked for, and as
    many peer rows as the map has entries: the instance used to run
    [compactData] on concrete inputs. *)
Definition echoCollaborators : Collaborators Z := {|
  getBatchSize := λ s, s;
  shareIntFrom := λ sender receiver me v, v;
  processMyData := λ data outputSize, Returns outputSize;
  processPeersData := λ dataSize indexes width,
    Returns (Z.of_nat (length indexes))
|}.

(** A data processor whose outputs have the given batch sizes. *)
Definition stubCollaborators (mine peers : Z) : Collaborators Z := {|
  getBatchSize := λ s, s;
  shareIntFrom := λ sender receiver me v, v;
  processMyData := λ data outputSize, Returns mine;
  processPeersData := λ dataSize indexes width, Returns peers
|}.

End Compact.

(** ** The byte layout of section 4.3 *)

(** The layout as section 4.3 of the specification words it, to be compared
    with the index-by-index writes of [preparePlaintextData]. *)
Module Layout.

(** The [size] little-endian bytes of [x]: byte [i] is the digit of weight
    [256^i] of the two's complement representation of [x]. *)
Definition littleEndian (size : nat) (x : Z) : list Z :=
  (λ i, (x / 2 ^ (8 * Z.of_nat i)) mod 256) <$> seq 0 size.

(** The packed booleans of a publisher row. *)
Definition publisherFlags (r : PublisherRow) : Z :=
  Z_of_bool (breakdownId r) + 2 * Z_of_bool (controlPopulation r)
  + 4 * Z_of_bool (isValidOpportunityTimestamp r)
  + 8 * Z_of_bool (testReach r).

Definition publisherLayout (r : PublisherRow) : list Z :=
  publisherFlags r :: littleEndian 4 (opportunityTimestamp r).

(** One 20-byte conversion block. *)
Definition conversionBlock (c : PartnerConversionRow) : list Z :=
  littleEndian 4 (purchaseTimestamp c)
  ++ littleEndian 4 (thresholdTimestamp c)
  ++ littleEndian 4 (purchaseValue c)
  ++ littleEndian 8 (purchaseValueSquared c).

Definition partnerLayout (r : PartnerRow)
    (conversions : list PartnerConversionRow) : list Z :=
  Z_of_bool (anyValidPurchaseTimestamp r)
  :: littleEndian 4 (cohortGroupId r)
  ++ concat (conversionBlock <$> conversions).

End Layout.

(** ** Datasets used to run the functions *)

Module Scenarios.

(** Three rows, none of them padding.  The publisher columns are those of
    end-to-end scenario 1 and the first partner row is that of scenario 2;
    the second partner row holds the largest [uint32_t] timestamp and
    purchase values outside the [int32_t] range. *)
Definition threeRows : InputData := {|
  getNumRows := 3;
  getDummyRows := [false; false; false];
  getGroupIds := [7; 8; 9];
  getPurchaseTimestampArrays := [[0; 50]; [4294967295; 0]; []];
  getPurchaseValueArrays := [[0; 20]; [4294967301; -2147483649]; []];
  getPurchaseValueSquaredArrays := [[0; 400]; [1099511627776; 9]; []];
  getOpportunityTimestamps := [100; 200; 0];
  getControlPopulation := [true; false; true];
  getTestPopulation := [false; true; false];
  getNumImpressions := [0; 5; 0];
  getBreakdownIds := [0; 1; 0]
|}.

(** Two rows, both flagged as padding. *)
Definition allPadding : InputData := {|
  getNumRows := 2;
  getDummyRows := [true; true];
  getGroupIds := [0; 0];
  getPurchaseTimestampArrays := [[]; []];
  getPurchaseValueArrays := [[]; []];
  getPurchaseValueSquaredArrays := [[]; []];
  getOpportunityTimestamps := [0; 0];
  getControlPopulation := [false; false];
  getTestPopulation := [false; false];
  getNumImpressions := [0; 0];
  getBreakdownIds := [0; 0]
|}.

(** Five rows, the second and the last flagged as padding: end-to-end
    scenario 3. *)
Definition fiveRows : InputData := {|
  getNumRows := 5;
  getDummyRows := [false; true; false; false; true];
  getGroupIds := [1; 0; 2; 3; 0];
  getPurchaseTimestampArrays := [[10]; []; [20; 30]; []; []];
  getPurchaseValueArrays := [[5]; []; [6; 7]; []; []];
  getPurchaseValueSquaredArrays := [[25]; []; [36; 49]; []; []];
  getOpportunityTimestamps := [100; 0; 200; 300; 0];
  getControlPopulation := [true; false; false; true; false];
  getTestPopulation := [false; false; true; false; false];
  getNumImpressions := [0; 0; 3; 0; 0];
  getBreakdownIds := [0; 0; 1; 1; 0]
|}.

(** The window used by end-to-end scenario 2. *)
Definition window : Z := 10.

End Scenarios.

(** ** extractCompactedData and the column extractors *)

Module Extract.











End Extract.

(** ** Shares *)

(** The exclusive or of two shares of a buffer or of a row, byte by byte
    and field by field. *)
Module Shares.

Definition xorBytes (a b : list Z) : list Z := zip_with Z.lxor a b.

Definition xorPublisherRow (x y : PublisherRow) : PublisherRow :=
  {| breakdownId := xorb (breakdownId x) (breakdownId y);
     controlPopulation := xorb (controlPopulation x) (controlPopulation y);
     isValidOpportunityTimestamp :=
       xorb (isValidOpportunityTimestamp x) (isValidOpportunityTimestamp y);
     testReach := xorb (testReach x) (testReach y);
     opportunityTimestamp :=
       Z.lxor (opportunityTimestamp x) (opportunityTimestamp y) |}.

Definition xorPartnerRow (x y : PartnerRow) : PartnerRow :=
  {| anyValidPurchaseTimestamp :=
       xorb (anyValidPurchaseTimestamp x) (anyValidPurchaseTimestamp y);
     cohortGroupId := Z.lxor (cohortGroupId x) (cohortGroupId y) |}.

Definition xorConversionRow (x y : PartnerConversionRow)
    : PartnerConversionRow :=
  {| purchaseTimestamp := Z.lxor (purchaseTimestamp x) (purchaseTimestamp y);
     thresholdTimestamp :=
       Z.lxor (thresholdTimestamp x) (thresholdTimestamp y);
     purchaseValue := Z.lxor (purchaseValue x) (purchaseValue y);
     purchaseValueSquared :=
       Z.lxor (purchaseValueSquared x) (purchaseValueSquared y) |}.

End Shares.

(** * Properties *)

(** ** Fixed-width integers *)

Lemma to_int32_id (x : Z) : is_int32 x -> to_int32 x = x.
Proof. intros H. int_consts. rewrite Z.mod_small by lia. lia. Qed.

(** ** Loops *)

Lemma for_each_cons {St I : Type} (body : St -> I -> option St)
    (i : I) (rest : list I) (st : St) :
  for_each body (i :: rest) st = body st i ≫= for_each body rest.
Proof. reflexivity. Qed.

(** A loop over the positions of a vector that reads the vector at each
    position is a loop over its elements. *)
Lemma for_each_seq_lookup {St A : Type} (body : St -> A -> option St)
    (pre l : list A) (st : St) :
  for_each (λ st i, x ← (pre ++ l) !! i; body st x)
           (seq (length pre) (length l)) st
  = for_each body l st.
Proof.
  revert pre st. induction l as [|x l IH]; intros pre st; simpl; [done|].
  rewrite lookup_app_r by lia. rewrite Nat.sub_diag. simpl.
  destruct (body st x) as [st'|]; simpl; [|done].
  specialize (IH (pre ++ [x]) st').
  rewrite <- app_assoc in IH. simpl in IH.
  rewrite length_app in IH. simpl in IH.
  replace (length pre + 1)%nat with (S (length pre)) in IH by lia.
  exact IH.
Qed.

(** ** Lists *)

(** Filters that agree on the elements of a list select the same
    elements. *)
Lemma filter_agree {A : Type} (P Q : A -> Prop)
    `{!∀ x, Decision (P x)} `{!∀ x, Decision (Q x)} (l : list A) :
  (∀ x, x ∈ l -> P x ↔ Q x) -> filter P l = filter Q l.
Proof.
  induction l as [|x l IH]; intros Hyp; [done|].
  assert (Hl : filter P l = filter Q l).
  { apply IH. intros y Hy. apply Hyp. by right. }
  destruct (decide (P x)) as [HP|HP].
  - rewrite !filter_cons_True; [by rewrite Hl | | done].
    apply Hyp; [left | done].
  - rewrite !filter_cons_False; [done | | done].
    intros HQ. apply HP. apply Hyp; [left | done].
Qed.

Lemma filter_all {A : Type} (P : A -> Prop) `{!∀ x, Decision (P x)}
    (l : list A) :
  (∀ x, x ∈ l -> P x) -> filter P l = l.
Proof.
  induction l as [|x l IH]; intros Hyp; [done|].
  rewrite filter_cons_True by (apply Hyp; left).
  f_equal. apply IH. intros y Hy. apply Hyp. by right.
Qed.

(** Entries selected by a filter are pairwise distinct as soon as no
    selected value occurs at two positions. *)
Lemma NoDup_filter_positions {A : Type} (P : A -> Prop)
    `{!∀ x, Decision (P x)} (l : list A) :
  (∀ i j x, P x -> l !! i = Some x -> l !! j = Some x -> i = j) ->
  NoDup (filter P l).
Proof.
  induction l as [|x l IH]; intros Hyp; [constructor|].
  assert (Hl : NoDup (filter P l)).
  { apply IH. intros i j y Hy Hi Hj.
    specialize (Hyp (S i) (S j) y Hy Hi Hj). lia. }
  destruct (decide (P x)) as [HP|HP].
  - rewrite filter_cons_True by done. apply NoDup_cons. split; [|done].
    intros Hin. apply list_elem_of_filter in Hin as [_ Hin].
    apply list_elem_of_lookup in Hin as [i Hi].
    specialize (Hyp 0%nat (S i) x HP eq_refl Hi). lia.
  - by rewrite filter_cons_False by done.
Qed.

(** ** shuffleAndGetUnionMap *)

Section ShuffleFacts.

Import Shuffle.
Variable dummyRows : list bool.

Lemma assign_dummy (m : list Z) (c : Z) (p : nat) :
  dummyRows !! p = Some true -> (p < length m)%nat ->
  assign dummyRows (m, c) p = Some (<[p := -1]> m, c).
Proof.
  intros Hd Hp. unfold assign. rewrite Hd. simpl.
  by rewrite decide_True by done.
Qed.

Lemma assign_real (m : list Z) (c : Z) (p : nat) :
  dummyRows !! p = Some false -> (p < length m)%nat ->
  assign dummyRows (m, c) p = Some (<[p := c]> m, to_int32 (c + 1)).
Proof.
  intros Hd Hp. unfold assign. rewrite Hd. simpl.
  by rewrite decide_True by done.
Qed.

(** The loop over a duplicate-free list of rows [ps]: rows outside [ps]
    keep their entry, padding rows of [ps] get the sentinel and the [k]-th
    row of [ps] that is not padding gets [c + k]. *)
Lemma assign_loop_spec (ps : list nat) (m : list Z) (c : Z) :
  NoDup ps ->
  (∀ p, p ∈ ps -> (p < length m)%nat ∧ (p < length dummyRows)%nat) ->
  0 <= c -> c + Z.of_nat (length ps) <= INT32_MAX ->
  ∃ m', for_each (assign dummyRows) ps (m, c)
        = Some (m', c + Z.of_nat (length (filter (notDummy dummyRows) ps)))
     ∧ length m' = length m
     ∧ (∀ q, q ∉ ps -> m' !! q = m !! q)
     ∧ (∀ p, p ∈ ps -> dummyRows !! p = Some true -> m' !! p = Some (-1))
     ∧ (∀ k p, filter (notDummy dummyRows) ps !! k = Some p ->
               m' !! p = Some (c + Z.of_nat k)).
Proof.
  revert m c. induction ps as [|p ps IH]; intros m c Hnd Hin Hc Hmax.
  - exists m. simpl. rewrite Z.add_0_r.
    repeat split; try done; intros ? Hp; inversion Hp.
  - apply NoDup_cons in Hnd as [Hp Hnd].
    destruct (Hin p) as [Hpm Hpd]; [left|].
    destruct (lookup_lt_is_Some_2 dummyRows p Hpd) as [d Hd].
    rewrite for_each_cons. simpl length in Hmax.
    destruct d.
    + rewrite assign_dummy by done. simpl mbind.
      destruct (IH (<[p := -1]> m) c) as (m' & Hrun & Hlen & Hout & Hdum & Hrank);
        [done | | done | lia |].
      { intros q Hq. rewrite length_insert. apply Hin. by right. }
      exists m'. rewrite Hrun.
      rewrite filter_cons_False by (unfold notDummy; congruence).
      rewrite length_insert in Hlen.
      repeat split; try done.
      * intros q Hq. apply not_elem_of_cons in Hq as [Hne Hq].
        rewrite Hout by done. by rewrite list_lookup_insert_ne.
      * intros q Hq Hqd. apply elem_of_cons in Hq as [->|Hq]; [|by apply Hdum].
        rewrite Hout by done. by rewrite list_lookup_insert_eq.
    + assert (Hwrap : to_int32 (c + 1) = c + 1).
      { apply to_int32_id. int_consts. lia. }
      rewrite assign_real by done. simpl mbind. rewrite Hwrap.
      destruct (IH (<[p := c]> m) (c + 1)) as (m' & Hrun & Hlen & Hout & Hdum & Hrank);
        [done | | lia | lia |].
      { intros q Hq. rewrite length_insert. apply Hin. by right. }
      exists m'. rewrite Hrun.
      rewrite filter_cons_True by done.
      rewrite length_insert in Hlen. simpl length.
      repeat split; try done.
      * do 2 f_equal. lia.
      * intros q Hq. apply not_elem_of_cons in Hq as [Hne Hq].
        rewrite Hout by done. by rewrite list_lookup_insert_ne.
      * intros q Hq Hqd. apply elem_of_cons in Hq as [->|Hq]; [congruence|].
        by apply Hdum.
      * intros [|k] q Hk; simpl in Hk.
        -- injection Hk as <-. rewrite Hout by done.
           rewrite list_lookup_insert_eq by done. f_equal. lia.
        -- rewrite (Hrank k q Hk). f_equal. lia.
Qed.

(** Rows that are not padding, counted by position, are the flags that are
    not set. *)
Lemma notDummy_count :
  (length (filter (notDummy dummyRows) (seq 0 (length dummyRows)))
   + numDummy dummyRows = length dummyRows)%nat.
Proof.
  unfold numDummy, notDummy.
  induction dummyRows as [|b l IH] using rev_ind; [done|].
  rewrite length_app. simpl.
  replace (length l + 1)%nat with (S (length l)) by lia.
  rewrite seq_S. simpl. rewrite !filter_app, !length_app.
  rewrite (filter_agree _ (λ p, l !! p = Some false) (seq 0 (length l))).
  2:{ intros p Hp. apply elem_of_seq in Hp. rewrite lookup_app_l by lia. done. }
  destruct b.
  - rewrite filter_cons_False, filter_nil.
    2:{ rewrite lookup_app_r by lia. rewrite Nat.sub_diag. simpl. congruence. }
    rewrite filter_cons_True by done. simpl. lia.
  - rewrite filter_cons_True, filter_nil.
    2:{ rewrite lookup_app_r by lia. rewrite Nat.sub_diag. done. }
    rewrite filter_cons_False by done. simpl. lia.
Qed.

End ShuffleFacts.

(** C2. Compaction correctness: for [n] rows, [n] padding flags and any
    permutation of [0 .. n-1] returned by the secure permutation,
    [shuffleAndGetUnionMap] returns a map of length [n] in which every
    padding row holds the sentinel -1 and whose other entries are pairwise
    distinct and are exactly the values [0 .. n-d-1], [d] being the number
    of padding rows. *)
Theorem shuffle_compaction_correct (n : nat) (randomPermutation : list nat)
    (dummyRows : list bool) :
  length dummyRows = n ->
  randomPermutation ≡ₚ seq 0 n ->
  Z.of_nat n <= INT32_MAX ->
  ∃ unionMap,
    Shuffle.shuffleAndGetUnionMap n randomPermutation dummyRows = Some unionMap
    ∧ length unionMap = n
    ∧ (∀ p, dummyRows !! p = Some true -> unionMap !! p = Some (-1))
    ∧ NoDup (Shuffle.nonSentinel unionMap)
    ∧ (∀ v, v ∈ Shuffle.nonSentinel unionMap
            ↔ 0 <= v < Z.of_nat (n - Shuffle.numDummy dummyRows)).
Proof.
  intros Hlen Hperm Hmax.
  assert (Hpl : length randomPermutation = n).
  { rewrite Hperm. apply length_seq. }
  assert (Hmem : ∀ p, p ∈ randomPermutation ↔ (p < n)%nat).
  { intros p. rewrite Hperm, elem_of_seq. lia. }
  assert (Hnd : NoDup randomPermutation).
  { rewrite Hperm. apply NoDup_seq. }
  destruct (assign_loop_spec dummyRows randomPermutation (replicate n 0) 0)
    as (m & Hrun & Hlm & _ & Hdum & Hrank); [done | | lia | lia |].
  { intros p Hp. apply Hmem in Hp. rewrite length_replicate. lia. }
  rewrite length_replicate in Hlm.
  set (nd := filter (Shuffle.notDummy dummyRows) randomPermutation) in *.
  assert (Hndlen : length nd = (n - Shuffle.numDummy dummyRows)%nat).
  { unfold nd. rewrite Hperm. pose proof (notDummy_count dummyRows) as Hc.
    rewrite Hlen in Hc. lia. }
  assert (Hndnd : NoDup nd) by (by apply NoDup_filter).
  (* every entry that is not the sentinel is the rank of its row in [nd] *)
  assert (Hentry : ∀ i v, m !! i = Some v -> v ≠ -1 ->
            ∃ k, nd !! k = Some i ∧ v = Z.of_nat k).
  { intros i v Hi Hv.
    assert (Hin : (i < n)%nat) by (rewrite <- Hlm; by eapply lookup_lt_Some).
    destruct (lookup_lt_is_Some_2 dummyRows i) as [d Hd]; [lia|].
    destruct d.
    - rewrite (Hdum i) in Hi by (by try apply Hmem). congruence.
    - assert (Hi' : i ∈ nd).
      { apply list_elem_of_filter. split; [done | by apply Hmem]. }
      apply list_elem_of_lookup in Hi' as [k Hk]. exists k. split; [done|].
      rewrite (Hrank k i Hk) in Hi. injection Hi as <-. lia. }
  exists m. split; [|split; [|split; [|split]]].
  - unfold Shuffle.shuffleAndGetUnionMap, Shuffle.step.
    pose proof (for_each_seq_lookup (Shuffle.assign dummyRows) []
                  randomPermutation (replicate n 0, 0)) as Hloop.
    simpl in Hloop. rewrite Hpl in Hloop. rewrite Hloop, Hrun. done.
  - done.
  - intros p Hp. apply Hdum; [|done]. apply Hmem.
    rewrite <- Hlen. by eapply lookup_lt_Some.
  - apply NoDup_filter_positions. intros i j v Hv Hi Hj.
    destruct (Hentry i v Hi Hv) as (k & Hk & ->).
    destruct (Hentry j _ Hj Hv) as (k' & Hk' & Heq).
    assert (k = k') by lia. subst k'. congruence.
  - intros v. unfold Shuffle.nonSentinel. split.
    + intros Hv. apply list_elem_of_filter in Hv as [Hv Hin].
      apply list_elem_of_lookup in Hin as [i Hi].
      destruct (Hentry i v Hi Hv) as (k & Hk & ->).
      apply lookup_lt_Some in Hk. lia.
    + intros [Hv1 Hv2].
      destruct (lookup_lt_is_Some_2 nd (Z.to_nat v)) as [p Hp]; [lia|].
      apply list_elem_of_filter. split; [lia|].
      apply list_elem_of_lookup. exists p.
      rewrite (Hrank _ _ Hp). f_equal. lia.
Qed.

Lemma shuffle_compaction_correct_witness :
  ∃ unionMap,
    Shuffle.shuffleAndGetUnionMap 5 [3; 0; 4; 1; 2]%nat
      [false; true; false; false; true] = Some unionMap
    ∧ length unionMap = 5%nat
    ∧ (∀ p, [false; true; false; false; true] !! p = Some true ->
            unionMap !! p = Some (-1))
    ∧ NoDup (Shuffle.nonSentinel unionMap)
    ∧ (∀ v, v ∈ Shuffle.nonSentinel unionMap
            ↔ 0 <= v < Z.of_nat
                (5 - Shuffle.numDummy [false; true; false; false; true])).
Proof.
  apply (shuffle_compaction_correct 5 [3; 0; 4; 1; 2]%nat
           [false; true; false; false; true]).
  - reflexivity.
  - apply NoDup_Permutation.
    + apply (bool_decide_unpack _). reflexivity.
    + apply NoDup_seq.
    + intros x. rewrite elem_of_seq. rewrite !elem_of_cons, elem_of_nil. lia.
  - vm_compute. discriminate.
Defined.

(** ** Rows built by preparePlaintextData *)

(** The elements of [mapM f (seq 0 n)] are the values of [f]. *)
Lemma mapM_seq_lookup {B : Type} (f : nat -> option B) (n : nat)
    (l : list B) (j : nat) (y : B) :
  mapM f (seq 0 n) = Some l -> l !! j = Some y -> f j = Some y.
Proof.
  intros Hm Hj. apply mapM_Some_1 in Hm.
  destruct (Forall2_lookup_r _ _ _ _ _ Hm Hj) as (i & Hi & Hf).
  apply lookup_seq in Hi as [-> _]. done.
Qed.

Lemma mapM_seq_length {B : Type} (f : nat -> option B) (n : nat)
    (l : list B) :
  mapM f (seq 0 n) = Some l -> length l = n.
Proof. intros Hm. apply length_mapM in Hm. by rewrite length_seq in Hm. Qed.

(** The rows of a padded nested array have the inner size. *)
Lemma padNestedArrays_inner {T : Type} (arrays : list (list T))
    (outerSize innerSize : nat) (padValue : T) (i : nat) (row : list T) :
  padNestedArrays arrays outerSize innerSize padValue !! i = Some row ->
  length row = innerSize.
Proof.
  unfold padNestedArrays. intros Hrow.
  assert (Hi : (i < outerSize)%nat).
  { apply lookup_lt_Some in Hrow. by rewrite length_resize in Hrow. }
  destruct (decide (i < length arrays)%nat) as [Hlt|Hge].
  - rewrite lookup_resize in Hrow by (rewrite ?length_fmap; lia).
    rewrite list_lookup_fmap in Hrow.
    destruct (arrays !! i); simplify_eq/=. apply length_resize.
  - rewrite lookup_resize_new in Hrow by (rewrite ?length_fmap; lia).
    simplify_eq. apply length_replicate.
Qed.

(** The flag accumulated by the [|=] loop. *)
Lemma anyValidPurchaseTimestampOf_spec (purchaseTimestamps : list Z) :
  Encode.anyValidPurchaseTimestampOf purchaseTimestamps = true
  ↔ ∃ j ts, purchaseTimestamps !! j = Some ts ∧ 0 < ts.
Proof.
  unfold Encode.anyValidPurchaseTimestampOf.
  assert (Hgen : ∀ l acc,
    foldl (λ acc ts, acc || (0 <? ts)) acc l = true
    ↔ acc = true ∨ ∃ j ts, l !! j = Some ts ∧ 0 < ts).
  { induction l as [|x l IH]; intros acc; simpl.
    - split; [by left | intros [H|(j & ts & H & _)]; [done | by destruct j]].
    - rewrite IH. rewrite orb_true_iff, Z.ltb_lt. split.
      + intros [[H|H]|(j & ts & Hj & Hts)]; [by left | |].
        * right. exists 0%nat, x. done.
        * right. exists (S j), ts. done.
      + intros [H|([|j] & ts & Hj & Hts)]; simplify_eq/=.
        * by left; left.
        * by left; right.
        * right. by exists j, ts. }
  rewrite Hgen. split; [intros [H|H]; [done | exact H] | by right].
Qed.

(** C3. Derived boolean fields: in every encoded publisher row
    [isValidOpportunityTimestamp] is true iff the opportunity timestamp is
    positive and the row is in the control or the test population, and
    [testReach] is true iff the row is in the test population with a
    positive number of impressions; in every encoded partner row
    [anyValidPurchaseTimestamp] is true iff one of the
    [numConversionsPerUser] padded purchase timestamps is positive. *)
Theorem derived_boolean_fields (numConversionsPerUser : nat) (window : Z)
    (d : InputData) (inputIndex : Z) (serialized : list Z) :
  (Encode.encodeAt numConversionsPerUser window PUBLISHER d inputIndex
     = Some serialized ->
   ∃ row ts control test impressions,
     Encode.publisherRowAt d (Z.to_nat inputIndex) = Some row
     ∧ serialized = Encode.serializePublisher row
     ∧ padArray (getOpportunityTimestamps d) (getNumRows d) 0
         !! Z.to_nat inputIndex = Some ts
     ∧ padArray (getControlPopulation d) (getNumRows d) false
         !! Z.to_nat inputIndex = Some control
     ∧ padArray (getTestPopulation d) (getNumRows d) false
         !! Z.to_nat inputIndex = Some test
     ∧ padArray (getNumImpressions d) (getNumRows d) 0
         !! Z.to_nat inputIndex = Some impressions
     ∧ (isValidOpportunityTimestamp row = true
        ↔ 0 < ts ∧ (control = true ∨ test = true))
     ∧ (testReach row = true ↔ test = true ∧ 0 < impressions))
  ∧
  (Encode.encodeAt numConversionsPerUser window PARTNER d inputIndex
     = Some serialized ->
   ∃ row conversions purchaseTimestamps,
     Encode.partnerRowAt numConversionsPerUser window d (Z.to_nat inputIndex)
       = Some (row, conversions)
     ∧ Encode.serializePartner numConversionsPerUser row conversions
       = Some serialized
     ∧ padNestedArrays (getPurchaseTimestampArrays d) (getNumRows d)
         numConversionsPerUser 0 !! Z.to_nat inputIndex
       = Some purchaseTimestamps
     ∧ length purchaseTimestamps = numConversionsPerUser
     ∧ (anyValidPurchaseTimestamp row = true
        ↔ ∃ j ts, (j < numConversionsPerUser)%nat
                  ∧ purchaseTimestamps !! j = Some ts ∧ 0 < ts)).
Proof.
  split.
  - unfold Encode.encodeAt, Encode.publisherRowAt. intros H.
    destruct (padArray (getOpportunityTimestamps d) _ _ !! _) as [ts|];
      [|done].
    destruct (padArray (getControlPopulation d) _ _ !! _) as [control|];
      [|done].
    destruct (padArray (getTestPopulation d) _ _ !! _) as [test|]; [|done].
    destruct (padArray (getNumImpressions d) _ _ !! _) as [imp|]; [|done].
    destruct (padArray (getBreakdownIds d) _ _ !! _) as [bid|]; [|done].
    simpl in H. injection H as <-.
    eexists _, ts, control, test, imp.
    split; [reflexivity|]. split; [reflexivity|].
    do 4 (split; [reflexivity|]). simpl.
    rewrite !andb_true_iff, orb_true_iff, !Z.ltb_lt. done.
  - unfold Encode.encodeAt. intros H.
    destruct (Encode.partnerRowAt _ _ d _) as [[row convs]|] eqn:Hrow;
      [|done].
    simpl in H. unfold Encode.partnerRowAt in Hrow.
    destruct (padNestedArrays (getPurchaseTimestampArrays d) _ _ _ !! _)
      as [pts|] eqn:Hpts; [|done].
    simpl in Hrow.
    destruct (padArray (getGroupIds d) _ _ !! _) as [cohort|]; [|done].
    simpl in Hrow.
    destruct (mapM _ _) as [cs|]; [|done]. simpl in Hrow.
    injection Hrow as <- <-.
    pose proof (padNestedArrays_inner _ _ _ _ _ _ Hpts) as Hlen.
    exists {| anyValidPurchaseTimestamp :=
                Encode.anyValidPurchaseTimestampOf pts;
              cohortGroupId := cohort |}, cs, pts.
    split; [reflexivity|]. split; [done|]. split; [reflexivity|].
    split; [done|]. simpl. rewrite anyValidPurchaseTimestampOf_spec.
    split.
    + intros (j & ts & Hj & Hts). exists j, ts. split; [|done].
      rewrite <- Hlen. by eapply lookup_lt_Some.
    + intros (j & ts & _ & Hj & Hts). by exists j, ts.
Qed.

Lemma derived_boolean_fields_witness :
  (∃ row ts control test impressions,
     Encode.publisherRowAt Scenarios.threeRows (Z.to_nat 1) = Some row
     ∧ [13; 200; 0; 0; 0] = Encode.serializePublisher row
     ∧ padArray (getOpportunityTimestamps Scenarios.threeRows)
         (getNumRows Scenarios.threeRows) 0 !! Z.to_nat 1 = Some ts
     ∧ padArray (getControlPopulation Scenarios.threeRows)
         (getNumRows Scenarios.threeRows) false !! Z.to_nat 1 = Some control
     ∧ padArray (getTestPopulation Scenarios.threeRows)
         (getNumRows Scenarios.threeRows) false !! Z.to_nat 1 = Some test
     ∧ padArray (getNumImpressions Scenarios.threeRows)
         (getNumRows Scenarios.threeRows) 0 !! Z.to_nat 1 = Some impressions
     ∧ (isValidOpportunityTimestamp row = true
        ↔ 0 < ts ∧ (control = true ∨ test = true))
     ∧ (testReach row = true ↔ test = true ∧ 0 < impressions))
  ∧
  (∃ row conversions purchaseTimestamps,
     Encode.partnerRowAt 2 Scenarios.window Scenarios.threeRows (Z.to_nat 2)
       = Some (row, conversions)
     ∧ Encode.serializePartner 2 row conversions
       = Some ([0; 9; 0; 0; 0] ++ replicate 40 0)
     ∧ padNestedArrays (getPurchaseTimestampArrays Scenarios.threeRows)
         (getNumRows Scenarios.threeRows) 2 0 !! Z.to_nat 2
       = Some purchaseTimestamps
     ∧ length purchaseTimestamps = 2%nat
     ∧ (anyValidPurchaseTimestamp row = true
        ↔ ∃ j ts, (j < 2)%nat ∧ purchaseTimestamps !! j = Some ts ∧ 0 < ts)).
Proof.
  split.
  - apply (proj1 (derived_boolean_fields 2 Scenarios.window
                    Scenarios.threeRows 1 [13; 200; 0; 0; 0])).
    vm_compute. reflexivity.
  - apply (proj2 (derived_boolean_fields 2 Scenarios.window
                    Scenarios.threeRows 2 ([0; 9; 0; 0; 0] ++ replicate 40 0))).
    vm_compute. reflexivity.
Defined.

(** End-to-end scenarios 1 and 2, run on the embedding. *)
Example scenario_1_publisher_rows :
  mapM (Encode.publisherRowAt Scenarios.threeRows) [0; 1; 2]%nat
  = Some [ {| breakdownId := false; controlPopulation := true;
              isValidOpportunityTimestamp := true; testReach := false;
              opportunityTimestamp := 100 |};
           {| breakdownId := true; controlPopulation := false;
              isValidOpportunityTimestamp := true; testReach := true;
              opportunityTimestamp := 200 |};
           {| breakdownId := false; controlPopulation := true;
              isValidOpportunityTimestamp := false; testReach := false;
              opportunityTimestamp := 0 |} ].
Proof. vm_compute. reflexivity. Qed.

Example scenario_2_partner_row :
  Encode.partnerRowAt 2 Scenarios.window Scenarios.threeRows 0
  = Some ({| anyValidPurchaseTimestamp := true; cohortGroupId := 7 |},
          [ {| purchaseTimestamp := 0; thresholdTimestamp := 0;
               purchaseValue := 0; purchaseValueSquared := 0 |};
            {| purchaseTimestamp := 50; thresholdTimestamp := 60;
               purchaseValue := 20; purchaseValueSquared := 400 |} ]).
Proof. vm_compute. reflexivity. Qed.

(** ** Conversions built by preparePlaintextData *)

(** Every conversion of a partner row is built by [conversionRowAt] from
    the padded columns. *)
Lemma partnerRowAt_conversion (numConversionsPerUser : nat) (window : Z)
    (d : InputData) (inputIndex : nat) (row : PartnerRow)
    (conversions : list PartnerConversionRow) (j : nat)
    (c : PartnerConversionRow) :
  Encode.partnerRowAt numConversionsPerUser window d inputIndex
    = Some (row, conversions) ->
  conversions !! j = Some c ->
  (j < numConversionsPerUser)%nat
  ∧ length conversions = numConversionsPerUser
  ∧ ∃ ts v sq,
      (padNestedArrays (getPurchaseTimestampArrays d) (getNumRows d)
         numConversionsPerUser 0 !! inputIndex) ≫= (.!! j) = Some ts
      ∧ (padNestedArrays (getPurchaseValueArrays d) (getNumRows d)
           numConversionsPerUser 0 !! inputIndex) ≫= (.!! j) = Some v
      ∧ (padNestedArrays (getPurchaseValueSquaredArrays d) (getNumRows d)
           numConversionsPerUser 0 !! inputIndex) ≫= (.!! j) = Some sq
      ∧ c = {| purchaseTimestamp := ts;
               thresholdTimestamp := Encode.thresholdTimestampOf window ts;
               purchaseValue := to_int32 v;
               purchaseValueSquared := sq |}.
Proof.
  unfold Encode.partnerRowAt. intros Hrow Hj.
  destruct (padNestedArrays (getPurchaseTimestampArrays d) _ _ _ !! _)
    as [pts|] eqn:Hpts; [|done].
  simpl in Hrow.
  destruct (padArray (getGroupIds d) _ _ !! _) as [cohort|]; [|done].
  simpl in Hrow.
  destruct (mapM _ _) as [cs|] eqn:Hcs; [|done]. simpl in Hrow.
  injection Hrow as <- <-.
  pose proof (mapM_seq_length _ _ _ Hcs) as Hlen.
  pose proof (mapM_seq_lookup _ _ _ _ _ Hcs Hj) as Hc.
  split; [rewrite <- Hlen; by eapply lookup_lt_Some|]. split; [done|].
  unfold Encode.conversionRowAt in Hc. rewrite Hpts in Hc.
  destruct (Some pts ≫= _) as [ts|]; [|done]. simpl in Hc.
  destruct (padNestedArrays (getPurchaseValueArrays d) _ _ _ !! _ ≫= _)
    as [v|]; [|done].
  simpl in Hc.
  destruct (padNestedArrays (getPurchaseValueSquaredArrays d) _ _ _ !! _ ≫= _)
    as [sq|]; [|done].
  simpl in Hc.
  injection Hc as <-. by exists ts, v, sq.
Qed.

(** The edge near the largest [uint32_t]: with the window of scenario 2,
    the conversion built for the purchase timestamp 4294967295 has the
    threshold timestamp 9, the sum 4294967305 reduced modulo 2^32. *)
Example threshold_timestamp_near_maximum :
  ∃ row conversions c,
    Encode.partnerRowAt 2 Scenarios.window Scenarios.threeRows 1
      = Some (row, conversions)
    ∧ conversions !! 0%nat = Some c
    ∧ purchaseTimestamp c = 4294967295
    ∧ is_uint32 (purchaseTimestamp c)
    ∧ 0 < purchaseTimestamp c
    ∧ thresholdTimestamp c = 9
    ∧ thresholdTimestamp c = to_uint32 (purchaseTimestamp c + Scenarios.window)
    ∧ thresholdTimestamp c ≠ purchaseTimestamp c + Scenarios.window.
Proof.
  eexists _, _, _. split; [vm_compute; reflexivity|].
  split; [reflexivity|]. simpl.
  repeat split; try done; vm_compute; congruence.
Qed.

(** C4. Threshold timestamp: for every conversion slot of every encoded
    partner row, [thresholdTimestamp] is [purchaseTimestamp] plus the
    window in [uint32_t] arithmetic when [purchaseTimestamp] is positive,
    that is the sum reduced modulo 2^32, which is the exact sum whenever
    that sum is below 2^32 and wraps for purchase timestamps near the
    largest [uint32_t]; it is 0 when [purchaseTimestamp] is 0. *)
Theorem threshold_timestamp_wraps (numConversionsPerUser : nat) (window : Z)
    (d : InputData) (inputIndex : nat) (row : PartnerRow)
    (conversions : list PartnerConversionRow) (j : nat)
    (c : PartnerConversionRow) :
  Encode.partnerRowAt numConversionsPerUser window d inputIndex
    = Some (row, conversions) ->
  conversions !! j = Some c ->
  (0 < purchaseTimestamp c ->
     thresholdTimestamp c = (purchaseTimestamp c + window) mod 2 ^ 32)
  ∧ (0 < purchaseTimestamp c -> is_uint32 (purchaseTimestamp c + window) ->
     thresholdTimestamp c = purchaseTimestamp c + window)
  ∧ (purchaseTimestamp c = 0 -> thresholdTimestamp c = 0)
  ∧ is_uint32 (thresholdTimestamp c).
Proof.
  intros Hrow Hj.
  destruct (partnerRowAt_conversion _ _ _ _ _ _ _ _ Hrow Hj)
    as (_ & _ & ts & v & sq & _ & _ & _ & ->).
  simpl. unfold Encode.thresholdTimestampOf.
  split; [|split; [|split]].
  - intros Hpos. apply Z.ltb_lt in Hpos. by rewrite Hpos.
  - intros Hpos Hfit. apply Z.ltb_lt in Hpos. rewrite Hpos.
    int_consts. by apply Z.mod_small.
  - intros ->. reflexivity.
  - destruct (0 <? ts); int_consts; [|lia].
    apply Z.mod_pos_bound. lia.
Qed.

Lemma threshold_timestamp_wraps_witness :
  ∃ c,
    ((0 < purchaseTimestamp c ->
        thresholdTimestamp c
        = (purchaseTimestamp c + Scenarios.window) mod 2 ^ 32)
     ∧ (0 < purchaseTimestamp c ->
        is_uint32 (purchaseTimestamp c + Scenarios.window) ->
        thresholdTimestamp c = purchaseTimestamp c + Scenarios.window)
     ∧ (purchaseTimestamp c = 0 -> thresholdTimestamp c = 0)
     ∧ is_uint32 (thresholdTimestamp c))
    ∧ purchaseTimestamp c = 50 ∧ thresholdTimestamp c = 60.
Proof.
  exists {| purchaseTimestamp := 50; thresholdTimestamp := 60;
            purchaseValue := 20; purchaseValueSquared := 400 |}.
  split; [|done].
  apply (threshold_timestamp_wraps 2 Scenarios.window Scenarios.threeRows 0
           {| anyValidPurchaseTimestamp := true; cohortGroupId := 7 |}
           [ {| purchaseTimestamp := 0; thresholdTimestamp := 0;
                purchaseValue := 0; purchaseValueSquared := 0 |};
             {| purchaseTimestamp := 50; thresholdTimestamp := 60;
                purchaseValue := 20; purchaseValueSquared := 400 |} ] 1).
  - vm_compute. reflexivity.
  - reflexivity.
Defined.

(** ** Bytes of an integer *)

Lemma extractByte_digit (x : Z) (i : nat) :
  extractByte x i = (x / 2 ^ (8 * Z.of_nat i)) mod 256.
Proof.
  unfold extractByte. rewrite Z.shiftr_div_pow2 by lia.
  change 255 with (Z.ones 8). rewrite Z.land_ones by lia. reflexivity.
Qed.

Lemma extractByte_range (x : Z) (i : nat) : is_uint8 (extractByte x i).
Proof.
  rewrite extractByte_digit. unfold is_uint8. apply Z.mod_pos_bound. lia.
Qed.

Lemma extractByte_testbit (x : Z) (i : nat) (n : Z) :
  0 <= n ->
  Z.testbit (extractByte x i) n
  = Z.testbit x (n + 8 * Z.of_nat i) && (n <? 8).
Proof.
  intros Hn. unfold extractByte. rewrite Z.land_spec, Z.shiftr_spec by lia.
  change 255 with (Z.ones 8). by rewrite Z.testbit_ones_nonneg by lia.
Qed.

(** The low bytes of an integer depend on its low bits only. *)
Lemma extractByte_low (w : nat) (x y : Z) (i : nat) :
  (i < w)%nat ->
  x mod 2 ^ (8 * Z.of_nat w) = y mod 2 ^ (8 * Z.of_nat w) ->
  extractByte x i = extractByte y i.
Proof.
  intros Hi Hxy. apply Z.bits_inj'. intros n Hn.
  rewrite !extractByte_testbit by done.
  destruct (n <? 8) eqn:Hn8; [|by rewrite !andb_false_r].
  apply Z.ltb_lt in Hn8. rewrite !andb_true_r.
  rewrite <- (Z.mod_pow2_bits_low x (8 * Z.of_nat w)) by lia.
  rewrite <- (Z.mod_pow2_bits_low y (8 * Z.of_nat w)) by lia.
  by rewrite Hxy.
Qed.

Lemma to_int32_range (x : Z) : is_int32 (to_int32 x).
Proof.
  int_consts. pose proof (Z.mod_pos_bound (x + 2147483648) 4294967296). lia.
Qed.

Lemma to_int32_low (x : Z) : to_int32 x mod 2 ^ 32 = x mod 2 ^ 32.
Proof.
  int_consts. rewrite (Z.mod_eq (x + 2147483648) 4294967296) by lia.
  replace (x + 2147483648
           - 4294967296 * ((x + 2147483648) / 4294967296) - 2147483648)
    with (x + - ((x + 2147483648) / 4294967296) * 4294967296) by lia.
  apply Z.mod_add. lia.
Qed.

(** C10. purchaseValue narrowing: the [purchaseValue] of every encoded
    conversion is the dataset's 64-bit purchase value converted to a 32-bit
    signed integer, that is its low 32 bits read in two's complement (so a
    value outside the [int32_t] range is changed and the bytes written are
    the low four bytes of the input), while [purchaseValueSquared] is the
    dataset's 64-bit value unchanged. *)
Theorem purchase_value_narrowing (numConversionsPerUser : nat) (window : Z)
    (d : InputData) (inputIndex : nat) (row : PartnerRow)
    (conversions : list PartnerConversionRow) (j : nat)
    (c : PartnerConversionRow) :
  Encode.partnerRowAt numConversionsPerUser window d inputIndex
    = Some (row, conversions) ->
  conversions !! j = Some c ->
  ∃ v sq,
    (padNestedArrays (getPurchaseValueArrays d) (getNumRows d)
       numConversionsPerUser 0 !! inputIndex) ≫= (.!! j) = Some v
    ∧ (padNestedArrays (getPurchaseValueSquaredArrays d) (getNumRows d)
         numConversionsPerUser 0 !! inputIndex) ≫= (.!! j) = Some sq
    ∧ purchaseValue c = to_int32 v
    ∧ is_int32 (purchaseValue c)
    ∧ purchaseValue c mod 2 ^ 32 = v mod 2 ^ 32
    ∧ (is_int32 v -> purchaseValue c = v)
    ∧ (¬ is_int32 v -> purchaseValue c ≠ v)
    ∧ (∀ byte, (byte < 4)%nat ->
         extractByte (purchaseValue c) byte = extractByte v byte)
    ∧ purchaseValueSquared c = sq.
Proof.
  intros Hrow Hj.
  destruct (partnerRowAt_conversion _ _ _ _ _ _ _ _ Hrow Hj)
    as (_ & _ & ts & v & sq & _ & Hv & Hsq & ->).
  exists v, sq. simpl.
  split; [done|]. split; [done|]. split; [done|].
  split; [apply to_int32_range|]. split; [apply to_int32_low|].
  split; [apply to_int32_id|]. split.
  - intros Hout Heq. apply Hout. rewrite <- Heq. apply to_int32_range.
  - split; [|done]. intros byte Hbyte.
    apply (extractByte_low 4); [done|]. apply to_int32_low.
Qed.

Lemma purchase_value_narrowing_witness :
  ∃ c v sq,
    (padNestedArrays (getPurchaseValueArrays Scenarios.threeRows)
         (getNumRows Scenarios.threeRows) 2 0 !! 1%nat) ≫= (.!! 0%nat)
      = Some v
    ∧ (padNestedArrays (getPurchaseValueSquaredArrays Scenarios.threeRows)
         (getNumRows Scenarios.threeRows) 2 0 !! 1%nat) ≫= (.!! 0%nat)
      = Some sq
    ∧ purchaseValue c = to_int32 v
    ∧ is_int32 (purchaseValue c)
    ∧ purchaseValue c mod 2 ^ 32 = v mod 2 ^ 32
    ∧ (is_int32 v -> purchaseValue c = v)
    ∧ (¬ is_int32 v -> purchaseValue c ≠ v)
    ∧ (∀ byte, (byte < 4)%nat ->
         extractByte (purchaseValue c) byte = extractByte v byte)
    ∧ purchaseValueSquared c = sq.
Proof.
  eexists. 
  eapply (purchase_value_narrowing 2 Scenarios.window Scenarios.threeRows 1
           _ _ 0).
  - vm_compute. reflexivity.
  - reflexivity.
Defined.

Example narrowing_examples :
  to_int32 4294967301 = 5 ∧ to_int32 (-2147483649) = 2147483647
  ∧ to_int32 (-3) = -3.
Proof. vm_compute. done. Qed.

(** ** The layout of the serialised rows *)

Lemma to_uint8_id (x : Z) : is_uint8 x -> to_uint8 x = x.
Proof. intros H. int_consts. by apply Z.mod_small. Qed.

Lemma to_uint8_extractByte (x : Z) (i : nat) :
  to_uint8 (extractByte x i) = extractByte x i.
Proof. apply to_uint8_id, extractByte_range. Qed.

Lemma littleEndian_4 (x : Z) :
  Layout.littleEndian 4 x
  = [extractByte x 0; extractByte x 1; extractByte x 2; extractByte x 3].
Proof. rewrite !extractByte_digit. reflexivity. Qed.

Lemma littleEndian_8 (x : Z) :
  Layout.littleEndian 8 x
  = [extractByte x 0; extractByte x 1; extractByte x 2; extractByte x 3;
     extractByte x 4; extractByte x 5; extractByte x 6; extractByte x 7].
Proof. rewrite !extractByte_digit. reflexivity. Qed.

Lemma littleEndian_length (size : nat) (x : Z) :
  length (Layout.littleEndian size x) = size.
Proof. unfold Layout.littleEndian. by rewrite length_fmap, length_seq. Qed.

Lemma conversionBlock_length (c : PartnerConversionRow) :
  length (Layout.conversionBlock c) = 20%nat.
Proof.
  unfold Layout.conversionBlock. by rewrite !length_app, !littleEndian_length.
Qed.

(** A write past a prefix of the buffer is a write into the rest. *)
Lemma store_app (pre l : list Z) (i k : nat) (v : Z) :
  i = (length pre + k)%nat ->
  Encode.store (pre ++ l) i v = pre ++ Encode.store l k v.
Proof. intros ->. unfold Encode.store. apply insert_app_r. Qed.

Lemma store_here (x : Z) (l : list Z) (v : Z) :
  Encode.store (x :: l) 0 v = to_uint8 v :: l.
Proof. reflexivity. Qed.

Lemma store_next (x : Z) (l : list Z) (k : nat) (v : Z) :
  Encode.store (x :: l) (S k) v = x :: Encode.store l k v.
Proof. reflexivity. Qed.

(** The packed flag byte has the four flags at bits 0 to 3. *)
Lemma publisherFlags_packed (r : PublisherRow) :
  to_uint8
    (Z.lor (Z.lor (Z.lor
       (Z_of_bool (breakdownId r))
       (Z.shiftl (Z_of_bool (controlPopulation r)) 1))
       (Z.shiftl (Z_of_bool (isValidOpportunityTimestamp r)) 2))
       (Z.shiftl (Z_of_bool (testReach r)) 3))
  = Layout.publisherFlags r.
Proof.
  unfold Layout.publisherFlags.
  destruct (breakdownId r), (controlPopulation r),
    (isValidOpportunityTimestamp r), (testReach r); reflexivity.
Qed.

Lemma publisherFlags_bits (r : PublisherRow) :
  Z.testbit (Layout.publisherFlags r) 0 = breakdownId r
  ∧ Z.testbit (Layout.publisherFlags r) 1 = controlPopulation r
  ∧ Z.testbit (Layout.publisherFlags r) 2 = isValidOpportunityTimestamp r
  ∧ Z.testbit (Layout.publisherFlags r) 3 = testReach r
  ∧ 0 <= Layout.publisherFlags r < 16.
Proof.
  unfold Layout.publisherFlags.
  destruct (breakdownId r), (controlPopulation r),
    (isValidOpportunityTimestamp r), (testReach r); simpl; repeat split; lia.
Qed.

Lemma serializePublisher_layout (r : PublisherRow) :
  Encode.serializePublisher r = Layout.publisherLayout r.
Proof.
  unfold Encode.serializePublisher, Layout.publisherLayout.
  unfold PUBLISHER_ROW_BYTES. cbn [replicate foldl seq Nat.add].
  repeat first [rewrite store_here | rewrite store_next].
  rewrite !to_uint8_extractByte, publisherFlags_packed, littleEndian_4.
  reflexivity.
Qed.

(** The writes of conversion [j] fill the 20 bytes that follow the first
    [5 + 20 * j] bytes of the buffer. *)
Lemma writeConversion_layout (j : nat) (c : PartnerConversionRow)
    (pre post : list Z) :
  length pre = (5 + 20 * j)%nat ->
  Encode.writeConversion j c (pre ++ replicate 20 0 ++ post)
  = pre ++ Layout.conversionBlock c ++ post.
Proof.
  intros Hpre. unfold Encode.writeConversion.
  unfold PARTNER_CONVERSION_ROW_SIZE_BYTES. cbn [foldl seq].
  repeat match goal with
  | |- context [Encode.store (pre ++ ?l) (?a + ?b + ?k)%nat ?v] =>
      rewrite (store_app pre l (a + b + k) (a - 5 + k) v) by (simpl; lia)
  end.
  cbn [replicate app Nat.add Nat.sub].
  repeat first [rewrite store_here | rewrite store_next].
  rewrite !to_uint8_extractByte.
  unfold Layout.conversionBlock. rewrite !littleEndian_4, littleEndian_8.
  reflexivity.
Qed.

(** The conversion loop, started after [j0] blocks have been written. *)
Lemma serialize_loop_layout (rowConversions cs : list PartnerConversionRow)
    (j0 : nat) (pre : list Z) :
  length pre = (5 + 20 * j0)%nat ->
  (∀ i, cs !! i = rowConversions !! (j0 + i)%nat) ->
  length cs = (length rowConversions - j0)%nat ->
  for_each (λ s j, c ← rowConversions !! j; Some (Encode.writeConversion j c s))
           (seq j0 (length cs)) (pre ++ replicate (20 * length cs) 0)
  = Some (pre ++ concat (Layout.conversionBlock <$> cs)).
Proof.
  revert j0 pre. induction cs as [|c cs IH]; intros j0 pre Hpre Hcs Hlen.
  - simpl. done.
  - replace (20 * length (c :: cs))%nat with (20 + 20 * length cs)%nat
      by (cbn [length]; lia).
    cbn [length seq]. rewrite for_each_cons.
    pose proof (Hcs 0%nat) as Hc. rewrite Nat.add_0_r in Hc.
    cbn [lookup list_lookup] in Hc.
    rewrite <- Hc. cbn [mbind option_bind].
    rewrite replicate_add, writeConversion_layout by done.
    rewrite fmap_cons, concat_cons.
    rewrite !(app_assoc pre). apply IH.
    + rewrite length_app, conversionBlock_length. lia.
    + intros i. etrans; [exact (Hcs (S i))|]. f_equal. lia.
    + simpl in Hlen. lia.
Qed.

Lemma serializePartner_layout (numConversionsPerUser : nat) (r : PartnerRow)
    (rowConversions : list PartnerConversionRow) :
  length rowConversions = numConversionsPerUser ->
  Encode.serializePartner numConversionsPerUser r rowConversions
  = Some (Layout.partnerLayout r rowConversions).
Proof.
  intros Hlen. unfold Encode.serializePartner, Layout.partnerLayout.
  unfold PARTNER_ROW_SIZE_BYTES, PARTNER_CONVERSION_ROW_SIZE_BYTES.
  rewrite replicate_add. cbn [replicate app].
  repeat first [rewrite store_here | rewrite store_next].
  rewrite !to_uint8_extractByte, littleEndian_4.
  assert (Hflag : to_uint8 (Z_of_bool (anyValidPurchaseTimestamp r))
                  = Z_of_bool (anyValidPurchaseTimestamp r))
    by (by destruct (anyValidPurchaseTimestamp r)).
  rewrite Hflag. rewrite <- Hlen.
  pose proof (serialize_loop_layout rowConversions rowConversions 0
    [Z_of_bool (anyValidPurchaseTimestamp r);
     extractByte (cohortGroupId r) 0; extractByte (cohortGroupId r) 1;
     extractByte (cohortGroupId r) 2; extractByte (cohortGroupId r) 3])
    as Hloop.
  cbn [app] in Hloop. rewrite Hloop; [done | done | done | lia].
Qed.

(** C5. Encode layout: an encoded publisher row is one byte packing
    [breakdownId], [controlPopulation], [isValidOpportunityTimestamp] and
    [testReach] at bits 0 to 3, followed by the 4 little-endian bytes of
    [opportunityTimestamp]; an encoded partner row is one byte carrying
    [anyValidPurchaseTimestamp] at bit 0, the 4 little-endian bytes of
    [cohortGroupId], then [numConversionsPerUser] consecutive 20-byte
    blocks, each the little-endian bytes of [purchaseTimestamp] (4),
    [thresholdTimestamp] (4), [purchaseValue] (4) and
    [purchaseValueSquared] (8). *)
Theorem encode_layout (numConversionsPerUser : nat) :
  (∀ r : PublisherRow,
     Encode.serializePublisher r
     = Layout.publisherFlags r :: Layout.littleEndian 4 (opportunityTimestamp r)
     ∧ Z.testbit (Layout.publisherFlags r) 0 = breakdownId r
     ∧ Z.testbit (Layout.publisherFlags r) 1 = controlPopulation r
     ∧ Z.testbit (Layout.publisherFlags r) 2 = isValidOpportunityTimestamp r
     ∧ Z.testbit (Layout.publisherFlags r) 3 = testReach r
     ∧ 0 <= Layout.publisherFlags r < 16)
  ∧
  (∀ (r : PartnerRow) (rowConversions : list PartnerConversionRow),
     length rowConversions = numConversionsPerUser ->
     Encode.serializePartner numConversionsPerUser r rowConversions
     = Some (Z_of_bool (anyValidPurchaseTimestamp r)
             :: Layout.littleEndian 4 (cohortGroupId r)
             ++ concat ((λ c, Layout.littleEndian 4 (purchaseTimestamp c)
                              ++ Layout.littleEndian 4 (thresholdTimestamp c)
                              ++ Layout.littleEndian 4 (purchaseValue c)
                              ++ Layout.littleEndian 8 (purchaseValueSquared c))
                        <$> rowConversions))
     ∧ Z.testbit (Z_of_bool (anyValidPurchaseTimestamp r)) 0
       = anyValidPurchaseTimestamp r
     ∧ Forall (λ c, length (Layout.conversionBlock c) = 20%nat) rowConversions).
Proof.
  split.
  - intros r. split; [apply serializePublisher_layout|].
    apply publisherFlags_bits.
  - intros r cs Hlen. split; [by apply serializePartner_layout|].
    split; [by destruct (anyValidPurchaseTimestamp r)|].
    apply Forall_forall. intros c _. apply conversionBlock_length.
Qed.

Lemma encode_layout_witness :
  Encode.serializePartner 2
    {| anyValidPurchaseTimestamp := true; cohortGroupId := 7 |}
    [ {| purchaseTimestamp := 0; thresholdTimestamp := 0;
         purchaseValue := 0; purchaseValueSquared := 0 |};
      {| purchaseTimestamp := 50; thresholdTimestamp := 60;
         purchaseValue := 20; purchaseValueSquared := 400 |} ]
  = Some ([1; 7; 0; 0; 0]
          ++ [0; 0; 0; 0; 0; 0; 0; 0; 0; 0; 0; 0; 0; 0; 0; 0; 0; 0; 0; 0]
          ++ [50; 0; 0; 0; 60; 0; 0; 0; 20; 0; 0; 0; 144; 1; 0; 0; 0; 0; 0; 0]).
Proof.
  destruct (proj2 (encode_layout 2)
              {| anyValidPurchaseTimestamp := true; cohortGroupId := 7 |}
              [ {| purchaseTimestamp := 0; thresholdTimestamp := 0;
                   purchaseValue := 0; purchaseValueSquared := 0 |};
                {| purchaseTimestamp := 50; thresholdTimestamp := 60;
                   purchaseValue := 20; purchaseValueSquared := 400 |} ]
              eq_refl) as [Hlayout _].
  exact Hlayout.
Defined.

(** ** Reading the fields back *)

(** Adding byte [k] above the low [k] bytes gives the low [k+1] bytes. *)
Lemma lor_next_byte (x : Z) (k : nat) :
  Z.lor (x mod 2 ^ (8 * Z.of_nat k))
        (Z.shiftl (extractByte x k) (8 * Z.of_nat k))
  = x mod 2 ^ (8 * Z.of_nat (S k)).
Proof.
  apply Z.bits_inj'. intros n Hn. rewrite Z.lor_spec.
  destruct (Z.lt_ge_cases n (8 * Z.of_nat k)) as [Hlow|Hhigh].
  - rewrite Z.shiftl_spec_low, orb_false_r by done.
    by rewrite !Z.mod_pow2_bits_low by lia.
  - rewrite Z.mod_pow2_bits_high by lia. simpl.
    rewrite Z.shiftl_spec by done. rewrite extractByte_testbit by lia.
    replace (n - 8 * Z.of_nat k + 8 * Z.of_nat k) with n by lia.
    destruct (n - 8 * Z.of_nat k <? 8) eqn:Hb.
    + apply Z.ltb_lt in Hb. rewrite andb_true_r.
      by rewrite Z.mod_pow2_bits_low by lia.
    + apply Z.ltb_ge in Hb. rewrite andb_false_r.
      by rewrite Z.mod_pow2_bits_high by lia.
Qed.

(** The loop of [reconstructFromBytes] over a buffer that holds the bytes
    of [x] from [offset] on. *)
Lemma reconstruct_loop (buffer : list Z) (offset : nat) (x : Z) (m k : nat)
    (val : Z) :
  (∀ i, (i < m)%nat ->
        buffer !! (offset + (k + i))%nat = Some (extractByte x (k + i))) ->
  val = x mod 2 ^ (8 * Z.of_nat k) ->
  for_each (λ val i, b ← buffer !! (offset + i)%nat;
                     Some (Z.lor val (Z.shiftl b (8 * Z.of_nat i))))
           (seq k m) val
  = Some (x mod 2 ^ (8 * Z.of_nat (k + m))).
Proof.
  revert k val. induction m as [|m IH]; intros k val Hbuf ->.
  - simpl. by rewrite Nat.add_0_r.
  - cbn [seq]. rewrite for_each_cons.
    pose proof (Hbuf 0%nat ltac:(lia)) as H0. rewrite Nat.add_0_r in H0.
    rewrite H0. cbn [mbind option_bind]. rewrite lor_next_byte.
    rewrite (IH (S k)); [do 3 f_equal; lia | | done].
    intros i Hi. specialize (Hbuf (S i) ltac:(lia)).
    replace (S k + i)%nat with (k + S i)%nat by lia. done.
Qed.

Lemma littleEndian_lookup (size : nat) (x : Z) (i : nat) :
  (i < size)%nat ->
  Layout.littleEndian size x !! i = Some (extractByte x i).
Proof.
  intros Hi. unfold Layout.littleEndian. rewrite list_lookup_fmap.
  rewrite lookup_seq_lt by done. simpl. by rewrite extractByte_digit.
Qed.

(** Reading a field at the offset where its little-endian bytes were
    written. *)
Lemma reconstruct_littleEndian (T : IntType) (buffer pre post : list Z)
    (offset : nat) (x : Z) :
  buffer = pre ++ Layout.littleEndian (sizeof T) x ++ post ->
  offset = length pre ->
  reconstructFromBytes T buffer offset
  = Some (convert T (x mod 2 ^ (8 * Z.of_nat (sizeof T)))).
Proof.
  intros -> ->. unfold reconstructFromBytes.
  rewrite (reconstruct_loop _ _ x (sizeof T) 0 0);
    [reflexivity | | by rewrite Z.mod_1_r].
  intros i Hi. rewrite lookup_app_r by lia.
  replace (length pre + (0 + i) - length pre)%nat with i by lia.
  rewrite lookup_app_l by (by rewrite littleEndian_length).
  by apply littleEndian_lookup.
Qed.

(** A value of type [T] is recovered from its low bytes. *)
Lemma convert_low_bytes (T : IntType) (x : Z) :
  inRange T x -> convert T (x mod 2 ^ (8 * Z.of_nat (sizeof T))) = x.
Proof.
  destruct T; simpl; intros H; int_consts.
  - change (2 ^ 32) with 4294967296.
    rewrite Z.mod_mod by lia. by apply Z.mod_small.
  - change (2 ^ 32) with 4294967296.
    destruct (Z.lt_ge_cases x 0).
    + rewrite <- (Z.mod_add x 1) by lia.
      rewrite (Z.mod_small (x + 1 * 4294967296)) by lia.
      rewrite <- (Z.mod_add _ (-1)) by lia. rewrite Z.mod_small; lia.
    + rewrite (Z.mod_small x) by lia. rewrite Z.mod_small; lia.
  - change (2 ^ 64) with 18446744073709551616.
    destruct (Z.lt_ge_cases x 0).
    + rewrite <- (Z.mod_add x 1) by lia.
      rewrite (Z.mod_small (x + 1 * 18446744073709551616)) by lia.
      rewrite <- (Z.mod_add _ (-1)) by lia. rewrite Z.mod_small; lia.
    + rewrite (Z.mod_small x) by lia. rewrite Z.mod_small; lia.
Qed.

Lemma reconstruct_field (T : IntType) (buffer pre post : list Z)
    (offset : nat) (x : Z) :
  inRange T x ->
  buffer = pre ++ Layout.littleEndian (sizeof T) x ++ post ->
  offset = length pre ->
  reconstructFromBytes T buffer offset = Some x.
Proof.
  intros Hx Hbuf Hoff.
  rewrite (reconstruct_littleEndian T buffer pre post offset x) by done.
  by rewrite convert_low_bytes.
Qed.

Lemma bool_of_Z_of_bool (b : bool) :
  Decode.bool_of_Z (Z.land (Z_of_bool b) 1) = b.
Proof. by destruct b. Qed.

Lemma decodePublisherRow_serialize (r : PublisherRow) :
  is_uint32 (opportunityTimestamp r) ->
  Decode.decodePublisherRow (Encode.serializePublisher r) = Some r.
Proof.
  intros Hts. rewrite serializePublisher_layout.
  unfold Decode.decodePublisherRow, Layout.publisherLayout.
  cbn [lookup list_lookup mbind option_bind].
  rewrite (reconstruct_field UInt32 _ [Layout.publisherFlags r] []
             1 (opportunityTimestamp r));
    [ | done | by rewrite app_nil_r | done ].
  cbn [mbind option_bind]. f_equal.
  destruct r as [b c v t ts]. unfold Layout.publisherFlags. simpl.
  by destruct b, c, v, t.
Qed.

Lemma concat_blocks_length (cs : list PartnerConversionRow) :
  length (concat (Layout.conversionBlock <$> cs)) = (20 * length cs)%nat.
Proof.
  induction cs as [|c cs IH]; [done|].
  rewrite fmap_cons, concat_cons, length_app, conversionBlock_length, IH.
  simpl length. lia.
Qed.

(** The block of conversion [j] starts at byte [5 + 20 * j]. *)
Lemma partnerLayout_split (r : PartnerRow) (cs : list PartnerConversionRow)
    (j : nat) (c : PartnerConversionRow) :
  cs !! j = Some c ->
  ∃ pre post,
    Layout.partnerLayout r cs = pre ++ Layout.conversionBlock c ++ post
    ∧ length pre = (5 + 20 * j)%nat.
Proof.
  intros Hj.
  exists (Z_of_bool (anyValidPurchaseTimestamp r)
          :: Layout.littleEndian 4 (cohortGroupId r)
          ++ concat (Layout.conversionBlock <$> take j cs)),
         (concat (Layout.conversionBlock <$> drop (S j) cs)).
  split.
  - unfold Layout.partnerLayout.
    rewrite <- (take_drop_middle cs j c Hj) at 1.
    rewrite fmap_app, fmap_cons, concat_app, concat_cons.
    cbn [app]. by rewrite <- !app_assoc.
  - cbn [length]. rewrite length_app, littleEndian_length.
    rewrite concat_blocks_length, length_take.
    apply lookup_lt_Some in Hj. lia.
Qed.

Lemma decodeConversionRow_layout (r : PartnerRow)
    (cs : list PartnerConversionRow) (j : nat) (c : PartnerConversionRow) :
  cs !! j = Some c -> conversionInRange c ->
  Decode.decodeConversionRow (Layout.partnerLayout r cs) j = Some c.
Proof.
  intros Hj (Hts & Hthr & Hv & Hsq).
  destruct (partnerLayout_split r cs j c Hj) as (pre & post & Hsplit & Hpre).
  unfold Decode.decodeConversionRow, PARTNER_CONVERSION_ROW_SIZE_BYTES.
  cbv zeta. unfold Layout.conversionBlock in Hsplit.
  rewrite (reconstruct_field UInt32 _ pre
             (Layout.littleEndian 4 (thresholdTimestamp c)
              ++ Layout.littleEndian 4 (purchaseValue c)
              ++ Layout.littleEndian 8 (purchaseValueSquared c) ++ post)
             (5 + j * 20) (purchaseTimestamp c));
    [ | done | by rewrite Hsplit, <- !app_assoc | lia ].
  cbn [mbind option_bind].
  rewrite (reconstruct_field UInt32 _
             (pre ++ Layout.littleEndian 4 (purchaseTimestamp c))
             (Layout.littleEndian 4 (purchaseValue c)
              ++ Layout.littleEndian 8 (purchaseValueSquared c) ++ post)
             (9 + j * 20) (thresholdTimestamp c));
    [ | done | by rewrite Hsplit, <- !app_assoc
      | rewrite length_app, littleEndian_length; lia ].
  cbn [mbind option_bind].
  rewrite (reconstruct_field Int32 _
             (pre ++ Layout.littleEndian 4 (purchaseTimestamp c)
                  ++ Layout.littleEndian 4 (thresholdTimestamp c))
             (Layout.littleEndian 8 (purchaseValueSquared c) ++ post)
             (13 + j * 20) (purchaseValue c));
    [ | done | by rewrite Hsplit, <- !app_assoc
      | rewrite !length_app, !littleEndian_length; lia ].
  cbn [mbind option_bind].
  rewrite (reconstruct_field Int64 _
             (pre ++ Layout.littleEndian 4 (purchaseTimestamp c)
                  ++ Layout.littleEndian 4 (thresholdTimestamp c)
                  ++ Layout.littleEndian 4 (purchaseValue c))
             post (17 + j * 20) (purchaseValueSquared c));
    [ | done | by rewrite Hsplit, <- !app_assoc
      | rewrite !length_app, !littleEndian_length; lia ].
  cbn [mbind option_bind]. by destruct c.
Qed.

Lemma decodePartnerRow_serialize (numConversionsPerUser : nat)
    (r : PartnerRow) (cs : list PartnerConversionRow) (bytes : list Z) :
  is_uint32 (cohortGroupId r) ->
  length cs = numConversionsPerUser ->
  Forall conversionInRange cs ->
  Encode.serializePartner numConversionsPerUser r cs = Some bytes ->
  Decode.decodePartnerRow numConversionsPerUser bytes = Some (r, cs).
Proof.
  intros Hcohort Hlen Hcs Hser.
  rewrite serializePartner_layout in Hser by done. injection Hser as <-.
  unfold Decode.decodePartnerRow.
  assert (H0 : Layout.partnerLayout r cs !! 0%nat
               = Some (Z_of_bool (anyValidPurchaseTimestamp r))) by done.
  rewrite H0. cbn [mbind option_bind].
  rewrite (reconstruct_field UInt32 _
             [Z_of_bool (anyValidPurchaseTimestamp r)]
             (concat (Layout.conversionBlock <$> cs)) 1 (cohortGroupId r));
    [ | done | done | done ].
  cbn [mbind option_bind].
  assert (Hm : mapM (Decode.decodeConversionRow (Layout.partnerLayout r cs))
                    (seq 0 numConversionsPerUser) = Some cs).
  { apply mapM_Some_2. apply Forall2_same_length_lookup_2.
    - by rewrite length_seq.
    - intros i j c Hi Hc. apply lookup_seq in Hi as [-> _]. simpl.
      apply decodeConversionRow_layout; [done|].
      rewrite Forall_forall in Hcs. apply Hcs.
      apply list_elem_of_lookup. by exists i. }
  rewrite Hm. cbn [mbind option_bind].
  rewrite bool_of_Z_of_bool. by destruct r.
Qed.

(** The buffers pushed by [preparePlaintextData] are encodings of rows of
    the processor's role. *)
Lemma encodeAt_encodeRow (numConversionsPerUser : nat) (window : Z)
    (myRole : Role) (d : InputData) (inputIndex : Z) (bytes : list Z) :
  Encode.encodeAt numConversionsPerUser window myRole d inputIndex
    = Some bytes ->
  ∃ r, roleOf r = myRole ∧ encodeRow numConversionsPerUser r = Some bytes.
Proof.
  unfold Encode.encodeAt. destruct myRole; intros H.
  - destruct (Encode.publisherRowAt d _) as [p|]; [|done].
    injection H as <-. by exists (RowOfPublisher p).
  - destruct (Encode.partnerRowAt _ _ d _) as [[p cs]|]; [|done].
    by exists (RowOfPartner p cs).
Qed.

(** C1. Round-trip encode/decode: for either role, any number of
    conversions per user and any row whose fields hold values of their
    types, the row is encoded, and decoding the encoded bytes at the offsets
    and bit positions of [deserializeSecretSharedData] gives back the row,
    field for field. *)
Theorem roundtrip_encode_decode (numConversionsPerUser : nat) (r : Row) :
  rowInRange numConversionsPerUser r ->
  ∃ bytes,
    encodeRow numConversionsPerUser r = Some bytes
    ∧ decodeRow (roleOf r) numConversionsPerUser bytes = Some r.
Proof.
  destruct r as [p|p cs]; simpl.
  - intros Hts. eexists. split; [reflexivity|].
    by rewrite decodePublisherRow_serialize.
  - intros (Hcohort & Hlen & Hcs).
    exists (Layout.partnerLayout p cs).
    split; [by apply serializePartner_layout|].
    rewrite (decodePartnerRow_serialize _ p cs); [done..|].
    by apply serializePartner_layout.
Qed.

Lemma roundtrip_encode_decode_witness :
  ∃ bytes,
    encodeRow 2
      (RowOfPartner {| anyValidPurchaseTimestamp := true; cohortGroupId := 8 |}
         [ {| purchaseTimestamp := 4294967295; thresholdTimestamp := 9;
              purchaseValue := -5; purchaseValueSquared := 1099511627776 |};
           {| purchaseTimestamp := 0; thresholdTimestamp := 0;
              purchaseValue := 2147483647; purchaseValueSquared := -9 |} ])
    = Some bytes
    ∧ decodeRow PARTNER 2 bytes
      = Some
          (RowOfPartner
             {| anyValidPurchaseTimestamp := true; cohortGroupId := 8 |}
             [ {| purchaseTimestamp := 4294967295; thresholdTimestamp := 9;
                  purchaseValue := -5; purchaseValueSquared := 1099511627776 |};
               {| purchaseTimestamp := 0; thresholdTimestamp := 0;
                  purchaseValue := 2147483647; purchaseValueSquared := -9 |} ]).
Proof.
  apply (roundtrip_encode_decode 2
    (RowOfPartner {| anyValidPurchaseTimestamp := true; cohortGroupId := 8 |}
       [ {| purchaseTimestamp := 4294967295; thresholdTimestamp := 9;
            purchaseValue := -5; purchaseValueSquared := 1099511627776 |};
         {| purchaseTimestamp := 0; thresholdTimestamp := 0;
            purchaseValue := 2147483647; purchaseValueSquared := -9 |} ])).
  simpl. split; [int_consts; lia|]. split; [reflexivity|].
  repeat constructor; simpl; int_consts; lia.
Defined.

Example roundtrip_publisher_example :
  Decode.decodePublisherRow [13; 200; 0; 0; 0]
  = Some {| breakdownId := true; controlPopulation := false;
            isValidOpportunityTimestamp := true; testReach := true;
            opportunityTimestamp := 200 |}.
Proof. vm_compute. reflexivity. Qed.

(** ** compactData *)

Lemma expectedIntersectionSizeOf_count (intersectionMap : list Z) :
  Z.of_nat (length intersectionMap) <= INT32_MAX ->
  Compact.expectedIntersectionSizeOf intersectionMap
  = Compact.matchedCount intersectionMap.
Proof.
  unfold Compact.expectedIntersectionSizeOf, Compact.matchedCount.
  assert (Hgen : ∀ l acc, 0 <= acc ->
            acc + Z.of_nat (length l) <= INT32_MAX ->
            foldl (λ left ele,
                     to_int32 (left + (if decide (ele = -1) then 0 else 1)))
                  acc l
            = acc + Z.of_nat (length (filter (λ ele, ele ≠ -1) l))).
  { induction l as [|x l IH]; intros acc Hacc Hmax; [simpl; lia|].
    cbn [foldl]. cbn [length] in Hmax.
    destruct (decide (x = -1)) as [->|Hx].
    - rewrite filter_cons_False by (intros Hne; by apply Hne).
      rewrite Z.add_0_r, to_int32_id by (int_consts; lia).
      apply IH; lia.
    - rewrite filter_cons_True by done.
      rewrite to_int32_id by (int_consts; lia).
      rewrite IH by lia. cbn [length]. lia. }
  intros Hmax. rewrite Hgen by lia. lia.
Qed.

Lemma matchedCount_bounds (intersectionMap : list Z) :
  0 <= Compact.matchedCount intersectionMap
       <= Z.of_nat (length intersectionMap).
Proof.
  unfold Compact.matchedCount.
  pose proof (length_filter (λ ele, ele ≠ -1) intersectionMap). lia.
Qed.

(** C6. Consistency validation: [compactData] computes the expected
    aligned size as the number of entries of the intersection map other
    than -1; when the publisher share buffer returned by the exchanger has
    another batch size it throws the message that starts with the party
    [Publisher] and gives the expected and then the actual count in decimal,
    otherwise when the partner share buffer has another batch size it throws
    the same message for the party [Partner] with both counts, and in both
    cases returns no pair; when both batch sizes equal the count it returns
    the pair. *)
Theorem compactData_validation {SecString : Type}
    `{!Compact.Collaborators SecString} (myRole : Role)
    (numConversionsPerUser : nat) (intersectionMap : list Z)
    (plaintextData : list (list Z))
    (publisherDataShares partnerDataShares : SecString)
    (trace : list Compact.Event) :
  Z.of_nat (length intersectionMap) <= INT32_MAX ->
  Compact.exchangerReturns myRole numConversionsPerUser intersectionMap
    plaintextData publisherDataShares partnerDataShares ->
  let expected := Compact.matchedCount intersectionMap in
  let result :=
    (Compact.compactData myRole numConversionsPerUser intersectionMap
       plaintextData trace).1 in
  Compact.expectedIntersectionSizeOf intersectionMap = expected
  ∧ (Compact.getBatchSize publisherDataShares ≠ expected ->
     result
     = Compact.Throws
         ("Publisher rows do not match up expected intersection size. Expected "
          +:+ pretty expected +:+ " but got "
          +:+ pretty (Compact.getBatchSize publisherDataShares)
          +:+ " rows."))
  ∧ (Compact.getBatchSize publisherDataShares = expected ->
     Compact.getBatchSize partnerDataShares ≠ expected ->
     result
     = Compact.Throws
         ("Partner rows do not match up expected intersection size. Expected "
          +:+ pretty expected +:+ " but got "
          +:+ pretty (Compact.getBatchSize partnerDataShares)
          +:+ " rows."))
  ∧ (Compact.getBatchSize publisherDataShares = expected ->
     Compact.getBatchSize partnerDataShares = expected ->
     result = Compact.Returns (publisherDataShares, partnerDataShares)).
Proof.
  intros Hmax Hex expected result.
  pose proof (expectedIntersectionSizeOf_count intersectionMap Hmax) as Hcount.
  fold expected in Hcount.
  assert (Hwrap : wrap_unsigned 64 expected = expected).
  { pose proof (matchedCount_bounds intersectionMap) as Hb.
    fold expected in Hb. int_consts. apply Z.mod_small. lia. }
  assert (Hres : result =
    if decide (expected ≠ Compact.getBatchSize publisherDataShares) then
      Compact.Throws (Compact.mismatchMessage "Publisher" expected
                        (Compact.getBatchSize publisherDataShares))
    else if decide (expected ≠ Compact.getBatchSize partnerDataShares) then
      Compact.Throws (Compact.mismatchMessage "Partner" expected
                        (Compact.getBatchSize partnerDataShares))
    else Compact.Returns (publisherDataShares, partnerDataShares)).
  { subst result. unfold Compact.compactData, Compact.exchangerReturns in *.
    destruct myRole; destruct Hex as [H1 H2];
      unfold mbind, Compact.M_bind, Compact.call, mret, Compact.M_ret,
        Compact.throw;
      cbn beta iota; rewrite H1, H2; cbn beta iota;
      rewrite Hcount, Hwrap;
      repeat case_decide; reflexivity. }
  split; [done|]. rewrite Hres. unfold Compact.mismatchMessage.
  split; [|split].
  - intros Hne. by rewrite decide_True by congruence.
  - intros Heq Hne. rewrite decide_False by congruence.
    by rewrite decide_True by congruence.
  - intros Heq1 Heq2. rewrite decide_False by congruence.
    by rewrite decide_False by congruence.
Qed.

(** The negative scenario: the exchanger returns one row fewer than
    expected for the publisher data. *)
Lemma compactData_validation_witness :
  (Compact.compactData (collaborators := Compact.stubCollaborators 1 2) PUBLISHER 2
     [0; -1; 1] [[13; 200; 0; 0; 0]; [2; 0; 0; 0; 0]; [6; 100; 0; 0; 0]] []).1
  = Compact.Throws
      "Publisher rows do not match up expected intersection size. Expected 2 but got 1 rows.".
Proof.
  destruct (@compactData_validation Z (Compact.stubCollaborators 1 2)
              PUBLISHER 2 [0; -1; 1]
              [[13; 200; 0; 0; 0]; [2; 0; 0; 0; 0]; [6; 100; 0; 0; 0]]
              1 2 [])
    as (_ & Hpublisher & _).
  - int_consts. simpl. lia.
  - split; reflexivity.
  - rewrite Hpublisher; [reflexivity|]. vm_compute. discriminate.
Defined.

Example partner_mismatch_message :
  (Compact.compactData (collaborators := Compact.stubCollaborators 2 5) PARTNER 2
     [0; -1; 1] [[]; []; []] []).1
  = Compact.Throws
      "Publisher rows do not match up expected intersection size. Expected 2 but got 5 rows."
  ∧ (Compact.compactData (collaborators := Compact.stubCollaborators 2 5) PUBLISHER 2
       [0; -1; 1] [[]; []; []] []).1
    = Compact.Throws
        "Partner rows do not match up expected intersection size. Expected 2 but got 5 rows."
  ∧ (Compact.compactData (collaborators := Compact.stubCollaborators 2 2) PUBLISHER 2
       [0; -1; 1] [[]; []; []] []).1
    = Compact.Returns (2, 2).
Proof. vm_compute. done. Qed.

(** C7 as stated fails: for a map with an unmatched entry the publisher
    calls [processMyData] with the length 3 of the map, while the expected
    aligned size is 2. *)
Lemma processMyData_size_is_not_matched_count :
  Compact.processMyDataSizes
    (Compact.compactData (collaborators := Compact.echoCollaborators) PUBLISHER 2
       [0; -1; 1] [[13; 200; 0; 0; 0]; [2; 0; 0; 0; 0]; [6; 100; 0; 0; 0]]
       []).2
  = [3]
  ∧ Compact.expectedIntersectionSizeOf [0; -1; 1] = 2
  ∧ Compact.matchedCount [0; -1; 1] = 2
  ∧ 3 ≠ 2.
Proof. vm_compute. repeat split; congruence. Qed.

(** C7, amended. The expected-output-size argument of every
    [processMyData] call made by [compactData] is the total length of the
    intersection map; the call is made unless the partner's
    [processPeersData] call threw first; the argument equals the expected
    aligned size exactly when the map has no -1 entry. *)
Theorem processMyData_size_is_map_length {SecString : Type}
    `{!Compact.Collaborators SecString} (myRole : Role)
    (numConversionsPerUser : nat) (intersectionMap : list Z)
    (plaintextData : list (list Z)) :
  let sizes :=
    Compact.processMyDataSizes
      (Compact.compactData myRole numConversionsPerUser intersectionMap
         plaintextData []).2 in
  (∀ size, size ∈ sizes -> size = Z.of_nat (length intersectionMap))
  ∧ (sizes = [Z.of_nat (length intersectionMap)]
     ∨ (myRole = PARTNER
        ∧ ∃ what,
            Compact.processPeersData
              (Compact.shareIntFrom PUBLISHER PARTNER myRole
                 (to_int32 (Z.of_nat (length plaintextData))))
              intersectionMap (Z.of_nat PUBLISHER_ROW_BYTES)
            = Compact.Throws what))
  ∧ (Z.of_nat (length intersectionMap) <= INT32_MAX ->
     (Z.of_nat (length intersectionMap)
      = Compact.expectedIntersectionSizeOf intersectionMap
      ↔ -1 ∉ intersectionMap)).
Proof.
  intros sizes.
  assert (Hsizes : sizes = [Z.of_nat (length intersectionMap)]
     ∨ (sizes = [] ∧ myRole = PARTNER
        ∧ ∃ what,
            Compact.processPeersData
              (Compact.shareIntFrom PUBLISHER PARTNER myRole
                 (to_int32 (Z.of_nat (length plaintextData))))
              intersectionMap (Z.of_nat PUBLISHER_ROW_BYTES)
            = Compact.Throws what)).
  { subst sizes. unfold Compact.compactData.
    unfold mbind, Compact.M_bind, Compact.call, mret, Compact.M_ret,
      Compact.throw.
    destruct myRole; cbn beta iota.
    - destruct (Compact.processMyData plaintextData _) as [pub|what];
        cbn beta iota.
      + destruct (Compact.processPeersData _ intersectionMap _) as [par|what];
          cbn beta iota; [repeat case_decide|]; by left.
      + by left.
    - destruct (Compact.processPeersData _ intersectionMap _)
        as [pub|what] eqn:Hpeers; cbn beta iota.
      + destruct (Compact.processMyData plaintextData _) as [par|what];
          cbn beta iota; [repeat case_decide|]; by left.
      + right. split; [done|]. split; [done|]. by exists what. }
  split; [|split].
  - intros size Hsize. destruct Hsizes as [Heq|[Heq _]]; rewrite Heq in Hsize.
    + by apply list_elem_of_singleton in Hsize.
    + by apply elem_of_nil in Hsize.
  - destruct Hsizes as [Heq|(_ & Hrole & Hthrow)]; [by left | by right].
  - intros Hmax. rewrite expectedIntersectionSizeOf_count by done.
    unfold Compact.matchedCount. split.
    + intros Hlen Hin. apply Nat2Z.inj in Hlen.
      assert (Hlt : (length (filter (λ ele : Z, ele ≠ (-1)%Z) intersectionMap)
                     < length intersectionMap)%nat).
      { eapply length_filter_lt; [exact Hin|]. intros Hne. by apply Hne. }
      lia.
    + intros Hnot. f_equal.
      rewrite filter_all; [done|]. intros x Hx ->. done.
Qed.

Lemma processMyData_size_is_map_length_witness :
  Z.of_nat (length [0; -1; 1])
  = Compact.expectedIntersectionSizeOf [0; -1; 1]
  ↔ -1 ∉ [0; -1; 1].
Proof.
  destruct (@processMyData_size_is_map_length Z Compact.echoCollaborators
              PUBLISHER 2 [0; -1; 1]
              [[13; 200; 0; 0; 0]; [2; 0; 0; 0; 0]; [6; 100; 0; 0; 0]])
    as (_ & _ & Hiff).
  apply Hiff. int_consts. simpl. lia.
Defined.

(** ** The number of encoded rows *)

(** C8 fails on the code when every row is padding: the union map has no
    entry other than the sentinel (k = 0), and [preparePlaintextData]
    returns one buffer, the encoding of dataset row 0, for either role. *)
Theorem preparePlaintextData_all_padding_returns_one_row :
  Shuffle.shuffleAndGetUnionMap 2 [1; 0]%nat
    (getDummyRows Scenarios.allPadding) = Some [-1; -1]
  ∧ Shuffle.nonSentinel [-1; -1] = []
  ∧ Encode.preparePlaintextData 2 Scenarios.window PUBLISHER
      Scenarios.allPadding [-1; -1]
    = Some [[0; 0; 0; 0; 0]]
  ∧ (length <$> Encode.preparePlaintextData 2 Scenarios.window PARTNER
                  Scenarios.allPadding [-1; -1])
    = Some 1%nat.
Proof. vm_compute. done. Qed.

(** End-to-end scenario 3: five rows, two of them padding. *)
Example scenario_3_three_encoded_rows :
  Shuffle.shuffleAndGetUnionMap 5 [3; 0; 4; 1; 2]%nat
    (getDummyRows Scenarios.fiveRows) = Some [1; -1; 2; 0; -1]
  ∧ Shuffle.nonSentinel [1; -1; 2; 0; -1] = [1; 2; 0]
  ∧ Encode.reverseUnionMapOf 5 [1; -1; 2; 0; -1] = Some [3; 0; 2]
  ∧ Encode.preparePlaintextData 2 Scenarios.window PUBLISHER
      Scenarios.fiveRows [1; -1; 2; 0; -1]
    = Some [[7; 44; 1; 0; 0]; [6; 100; 0; 0; 0]; [13; 200; 0; 0; 0]]
  ∧ (length <$> Encode.preparePlaintextData 2 Scenarios.window PARTNER
                  Scenarios.fiveRows [1; -1; 2; 0; -1])
    = Some 3%nat.
Proof. vm_compute. done. Qed.

(** Padded columns have an entry for every row of the dataset. *)
Lemma padArray_lookup {T : Type} (array : list T) (size : nat) (padValue : T)
    (i : nat) :
  (i < size)%nat -> is_Some (padArray array size padValue !! i).
Proof.
  intros Hi. apply lookup_lt_is_Some_2. unfold padArray.
  by rewrite length_resize.
Qed.

Lemma padNestedArrays_lookup {T : Type} (arrays : list (list T))
    (outerSize innerSize : nat) (padValue : T) (i j : nat) :
  (i < outerSize)%nat -> (j < innerSize)%nat ->
  is_Some ((padNestedArrays arrays outerSize innerSize padValue !! i)
           ≫= (.!! j)).
Proof.
  intros Hi Hj.
  destruct (lookup_lt_is_Some_2
              (padNestedArrays arrays outerSize innerSize padValue) i)
    as [row Hrow].
  { unfold padNestedArrays. by rewrite length_resize. }
  rewrite Hrow. cbn [mbind option_bind].
  apply lookup_lt_is_Some_2.
  by rewrite (padNestedArrays_inner _ _ _ _ _ _ Hrow).
Qed.

(** A partner row is built with one conversion per slot. *)
Lemma partnerRowAt_length (numConversionsPerUser : nat) (window : Z)
    (d : InputData) (inputIndex : nat) (row : PartnerRow)
    (conversions : list PartnerConversionRow) :
  Encode.partnerRowAt numConversionsPerUser window d inputIndex
    = Some (row, conversions) ->
  length conversions = numConversionsPerUser.
Proof.
  unfold Encode.partnerRowAt. intros Hrow.
  destruct (padNestedArrays (getPurchaseTimestampArrays d) _ _ _ !! _)
    as [pts|]; [|done].
  cbn [mbind option_bind] in Hrow.
  destruct (padArray (getGroupIds d) _ _ !! _) as [cohort|]; [|done].
  cbn [mbind option_bind] in Hrow.
  destruct (mapM _ _) as [cs|] eqn:Hcs; [|done].
  cbn [mbind option_bind] in Hrow. injection Hrow as _ <-.
  by apply mapM_seq_length in Hcs.
Qed.

(** Every row of the dataset is encoded. *)
Lemma encodeAt_is_Some (numConversionsPerUser : nat) (window : Z)
    (myRole : Role) (d : InputData) (inputIndex : Z) :
  0 <= inputIndex < Z.of_nat (getNumRows d) ->
  is_Some (Encode.encodeAt numConversionsPerUser window myRole d inputIndex).
Proof.
  intros Hidx.
  assert (Hi : (Z.to_nat inputIndex < getNumRows d)%nat) by lia.
  unfold Encode.encodeAt. destruct myRole.
  - unfold Encode.publisherRowAt.
    destruct (padArray_lookup (getOpportunityTimestamps d) _ 0 _ Hi)
      as [ts ->].
    destruct (padArray_lookup (getControlPopulation d) _ false _ Hi)
      as [control ->].
    destruct (padArray_lookup (getTestPopulation d) _ false _ Hi)
      as [test ->].
    destruct (padArray_lookup (getNumImpressions d) _ 0 _ Hi) as [imp ->].
    destruct (padArray_lookup (getBreakdownIds d) _ 0 _ Hi) as [bid ->].
    by eexists.
  - assert (Hrow : ∃ row cs,
      Encode.partnerRowAt numConversionsPerUser window d (Z.to_nat inputIndex)
        = Some (row, cs)).
    { unfold Encode.partnerRowAt.
      destruct (lookup_lt_is_Some_2
                  (padNestedArrays (getPurchaseTimestampArrays d)
                     (getNumRows d) numConversionsPerUser 0)
                  (Z.to_nat inputIndex)) as [pts ->].
      { unfold padNestedArrays. by rewrite length_resize. }
      cbn [mbind option_bind].
      destruct (padArray_lookup (getGroupIds d) _ 0 _ Hi) as [cohort ->].
      cbn [mbind option_bind].
      destruct (mapM_is_Some_2
                  (Encode.conversionRowAt window
                     (padNestedArrays (getPurchaseTimestampArrays d)
                        (getNumRows d) numConversionsPerUser 0)
                     (padNestedArrays (getPurchaseValueArrays d)
                        (getNumRows d) numConversionsPerUser 0)
                     (padNestedArrays (getPurchaseValueSquaredArrays d)
                        (getNumRows d) numConversionsPerUser 0)
                     (Z.to_nat inputIndex))
                  (seq 0 numConversionsPerUser)) as [cs ->].
      { apply Forall_forall. intros j Hj. apply elem_of_seq in Hj.
        unfold compose, Encode.conversionRowAt.
        destruct (padNestedArrays_lookup (getPurchaseTimestampArrays d)
                    (getNumRows d) numConversionsPerUser 0
                    (Z.to_nat inputIndex) j) as [ts ->]; [done | lia |].
        destruct (padNestedArrays_lookup (getPurchaseValueArrays d)
                    (getNumRows d) numConversionsPerUser 0
                    (Z.to_nat inputIndex) j) as [v ->]; [done | lia |].
        destruct (padNestedArrays_lookup (getPurchaseValueSquaredArrays d)
                    (getNumRows d) numConversionsPerUser 0
                    (Z.to_nat inputIndex) j) as [sq ->]; [done | lia |].
        by eexists. }
      by eexists _, _. }
    destruct Hrow as (row & cs & Hrow). rewrite Hrow. cbn [mbind option_bind].
    rewrite serializePartner_layout; [by eexists|].
    by eapply partnerRowAt_length.
Qed.

Lemma elem_of_insert_inv {A : Type} (l : list A) (i : nat) (x y : A) :
  y ∈ <[i := x]> l -> y = x ∨ y ∈ l.
Proof.
  intros Hy. apply list_elem_of_lookup in Hy as [j Hj].
  destruct (decide (i = j)) as [->|Hne].
  - destruct (decide (j < length l)%nat).
    + rewrite list_lookup_insert_eq in Hj by done. left. congruence.
    + rewrite list_insert_ge in Hj by lia. right.
      apply list_elem_of_lookup. by exists j.
  - rewrite list_lookup_insert_ne in Hj by done. right.
    apply list_elem_of_lookup. by exists j.
Qed.

Lemma reverseStep_nonneg (unionMap rev : list Z) (sz : Z) (i : nat) (u : Z) :
  unionMap !! i = Some u -> 0 <= u -> (Z.to_nat u < length rev)%nat ->
  Encode.reverseStep unionMap (rev, sz) i
  = Some (<[Z.to_nat u := Z.of_nat i]> rev, Z.max sz u).
Proof.
  intros Hu Hpos Hfit. unfold Encode.reverseStep. rewrite Hu.
  cbn [mbind option_bind]. apply Z.leb_le in Hpos. rewrite Hpos.
  by rewrite decide_True by done.
Qed.

Lemma reverseStep_negative (unionMap rev : list Z) (sz : Z) (i : nat)
    (u : Z) :
  unionMap !! i = Some u -> u < 0 ->
  Encode.reverseStep unionMap (rev, sz) i = Some (rev, sz).
Proof.
  intros Hu Hneg. unfold Encode.reverseStep. rewrite Hu.
  cbn [mbind option_bind]. apply Z.leb_gt in Hneg. by rewrite Hneg.
Qed.

(** The inversion loop from index [i0] on: it succeeds when every
    compacted index fits the reverse map, the size found is the largest
    compacted index met (or the initial size), and the reverse map holds row
    indices. *)
Lemma reverse_loop_spec (unionMap : list Z) (m i0 : nat) (rev : list Z)
    (sz : Z) :
  (i0 + m = length unionMap)%nat ->
  (∀ i u, unionMap !! i = Some u -> 0 <= u ->
          (Z.to_nat u < length rev)%nat) ->
  ∃ rev' sz',
    for_each (Encode.reverseStep unionMap) (seq i0 m) (rev, sz)
      = Some (rev', sz')
    ∧ length rev' = length rev
    ∧ sz <= sz'
    ∧ (∀ i u, (i0 <= i)%nat -> unionMap !! i = Some u -> 0 <= u -> u <= sz')
    ∧ (sz' = sz ∨ (sz' ∈ unionMap ∧ 0 <= sz'))
    ∧ (∀ x, x ∈ rev' ->
            x ∈ rev ∨ 0 <= x < Z.of_nat (length unionMap)).
Proof.
  revert i0 rev sz. induction m as [|m IH]; intros i0 rev sz Hlen Hfit.
  - exists rev, sz. split; [done|]. split; [done|]. split; [lia|].
    split; [|split; [by left | by left]].
    intros i u Hi Hu. apply lookup_lt_Some in Hu. lia.
  - cbn [seq]. rewrite for_each_cons.
    destruct (lookup_lt_is_Some_2 unionMap i0) as [u Hu]; [lia|].
    destruct (Z.le_gt_cases 0 u) as [Hsign|Hsign].
    + rewrite (reverseStep_nonneg _ _ _ _ u) by (try done; by eapply Hfit).
      cbn [mbind option_bind].
      destruct (IH (S i0) (<[Z.to_nat u := Z.of_nat i0]> rev) (Z.max sz u))
        as (rev' & sz' & Hrun & Hl & Hsz & Hmax & Hfrom & Hrev); [lia | |].
      { intros i v Hv Hpos. rewrite length_insert. by eapply Hfit. }
      exists rev', sz'. rewrite Hrun. rewrite length_insert in Hl.
      split; [done|]. split; [done|]. split; [lia|].
      split; [|split].
      * intros i v Hi Hv Hpos.
        destruct (decide (i = i0)) as [->|Hne]; [|apply (Hmax i); [lia|done..]].
        assert (v = u) by congruence. lia.
      * destruct Hfrom as [->|Hin]; [|by right].
        destruct (Z.max_spec sz u) as [[_ ->]|[_ ->]]; [|by left].
        right. split; [|done]. apply list_elem_of_lookup. by exists i0.
      * intros x Hx. destruct (Hrev x Hx) as [Hin|Hrange]; [|by right].
        destruct (elem_of_insert_inv _ _ _ _ Hin) as [->|Hold]; [|by left].
        right. lia.
    + rewrite (reverseStep_negative _ _ _ _ u) by done.
      cbn [mbind option_bind].
      destruct (IH (S i0) rev sz)
        as (rev' & sz' & Hrun & Hl & Hsz & Hmax & Hfrom & Hrev);
        [lia | done |].
      exists rev', sz'. rewrite Hrun.
      split; [done|]. split; [done|]. split; [done|].
      split; [|split; [done | done]].
      intros i v Hi Hv Hpos.
      destruct (decide (i = i0)) as [->|Hne]; [|apply (Hmax i); [lia|done..]].
      assert (v = u) by congruence. lia.
Qed.

(** X15. The number of buffers [preparePlaintextData] returns: for a dataset
    with at least one row and a union map whose entries other than the
    sentinel are exactly [0 .. k-1], it is [k] when [k >= 1] and 1 when
    [k = 0]. *)
Lemma preparePlaintextData_row_count (numConversionsPerUser : nat)
    (window : Z) (myRole : Role) (d : InputData) (unionMap : list Z)
    (k : nat) :
  length unionMap = getNumRows d ->
  (1 <= getNumRows d)%nat ->
  Z.of_nat (getNumRows d) <= INT32_MAX ->
  (∀ v, v ∈ Shuffle.nonSentinel unionMap ↔ 0 <= v < Z.of_nat k) ->
  ∃ rows,
    Encode.preparePlaintextData numConversionsPerUser window myRole d unionMap
      = Some rows
    ∧ length rows = Nat.max k 1.
Proof.
  intros Hlen Hrows Hmax Hset.
  assert (Hentry : ∀ i u, unionMap !! i = Some u -> 0 <= u ->
                          u < Z.of_nat k).
  { intros i u Hu Hpos. apply Hset. apply list_elem_of_filter.
    split; [lia|]. apply list_elem_of_lookup. by exists i. }
  assert (Hk : (k <= getNumRows d)%nat).
  { assert (Hsub : (length (Z.of_nat <$> seq 0 k) <= length unionMap)%nat).
    { apply submseteq_length, NoDup_submseteq.
      - apply NoDup_fmap_2; [apply _ | apply NoDup_seq].
      - intros v Hv. apply list_elem_of_fmap in Hv as (j & -> & Hj).
        apply elem_of_seq in Hj.
        assert (Hin : Z.of_nat j ∈ Shuffle.nonSentinel unionMap)
          by (apply Hset; lia).
        by apply list_elem_of_filter in Hin as [_ Hin]. }
    rewrite length_fmap, length_seq in Hsub. lia. }
  destruct (reverse_loop_spec unionMap (length unionMap) 0
              (replicate (getNumRows d) 0) 0)
    as (rev & sz & Hrun & Hl & Hsz & Hle & Hfrom & Hrev); [done | |].
  { intros i u Hu Hpos. rewrite length_replicate.
    specialize (Hentry i u Hu Hpos). lia. }
  assert (Hsize : sz + 1 = Z.of_nat (Nat.max k 1)).
  { destruct (decide (k = 0)%nat) as [->|Hk0].
    - destruct Hfrom as [->|[Hin Hpos]]; [done|].
      apply list_elem_of_lookup in Hin as [i Hi].
      specialize (Hentry i sz Hi Hpos). lia.
    - assert (Hlast : Z.of_nat (k - 1) ∈ Shuffle.nonSentinel unionMap)
        by (apply Hset; lia).
      apply list_elem_of_filter in Hlast as [_ Hlast].
      apply list_elem_of_lookup in Hlast as [i Hi].
      specialize (Hle i _ ltac:(lia) Hi ltac:(lia)).
      destruct Hfrom as [->|[Hin Hpos]]; [lia|].
      apply list_elem_of_lookup in Hin as [i' Hi'].
      specialize (Hentry i' sz Hi' Hpos). lia. }
  unfold Encode.preparePlaintextData, Encode.reverseUnionMapOf.
  rewrite Hrun. cbn [mbind option_bind].
  rewrite to_int32_id by (int_consts; lia).
  rewrite Hsize.
  destruct (Z.of_nat (Nat.max k 1) <? 0) eqn:Hneg;
    [apply Z.ltb_lt in Hneg; lia|].
  cbn [mbind option_bind]. rewrite Nat2Z.id.
  destruct (mapM_is_Some_2
              (Encode.encodeAt numConversionsPerUser window myRole d)
              (resize (Nat.max k 1) 0 rev)) as [rows Hrowsome].
  - apply Forall_forall. intros x Hx. apply encodeAt_is_Some.
    rewrite resize_spec in Hx. apply elem_of_app in Hx as [Hx|Hx].
    + assert (Hx' : x ∈ rev).
      { apply elem_of_take in Hx as (i & Hi & _).
        apply list_elem_of_lookup. by exists i. }
      destruct (Hrev x Hx') as [Hinit|Hrange]; [|lia].
      apply elem_of_replicate_inv in Hinit. lia.
    + apply elem_of_replicate_inv in Hx. lia.
  - exists rows. split; [done|].
    apply length_mapM in Hrowsome. by rewrite length_resize in Hrowsome.
Qed.

(** ** Round trip on the buffers of preparePlaintextData *)

Lemma padArray_Forall {T : Type} (P : T -> Prop) (array : list T)
    (size : nat) (padValue : T) :
  Forall P array -> P padValue -> Forall P (padArray array size padValue).
Proof.
  intros Harr Hpad. unfold padArray. rewrite resize_spec.
  apply Forall_app. split; [by apply Forall_take|by apply Forall_replicate].
Qed.

Lemma padNestedArrays_Forall {T : Type} (P : T -> Prop)
    (arrays : list (list T)) (outerSize innerSize : nat) (padValue : T) :
  Forall (Forall P) arrays -> P padValue ->
  Forall (Forall P) (padNestedArrays arrays outerSize innerSize padValue).
Proof.
  intros Harr Hpad. unfold padNestedArrays.
  apply (padArray_Forall (Forall P)); [|by apply Forall_replicate].
  apply Forall_fmap. eapply Forall_impl; [exact Harr|].
  intros a Ha. by apply (padArray_Forall P).
Qed.

Lemma padNestedArrays_cell {T : Type} (P : T -> Prop)
    (arrays : list (list T)) (outerSize innerSize : nat) (padValue : T)
    (i j : nat) (x : T) :
  Forall (Forall P) arrays -> P padValue ->
  (padNestedArrays arrays outerSize innerSize padValue !! i) ≫= (.!! j)
    = Some x ->
  P x.
Proof.
  intros Harr Hpad Hx.
  pose proof (padNestedArrays_Forall P arrays outerSize innerSize padValue
                Harr Hpad) as Hall.
  destruct (padNestedArrays arrays outerSize innerSize padValue !! i)
    as [row|] eqn:Hrow; [|done].
  cbn [mbind option_bind] in Hx.
  rewrite Forall_lookup in Hall. specialize (Hall i row Hrow).
  rewrite Forall_lookup in Hall. by apply (Hall j).
Qed.

Lemma thresholdTimestampOf_range (window ts : Z) :
  is_uint32 (Encode.thresholdTimestampOf window ts).
Proof.
  unfold Encode.thresholdTimestampOf. destruct (0 <? ts); int_consts; [|lia].
  apply Z.mod_pos_bound. lia.
Qed.

(** X16. The rows built from a dataset in range are in range: every buffer
    returned by [preparePlaintextData] decodes to the row it encodes. *)
Corollary encodeAt_decodes (numConversionsPerUser : nat) (window : Z)
    (myRole : Role) (d : InputData) (inputIndex : Z) (bytes : list Z) :
  datasetInRange d ->
  Encode.encodeAt numConversionsPerUser window myRole d inputIndex
    = Some bytes ->
  ∃ r, roleOf r = myRole
       ∧ rowInRange numConversionsPerUser r
       ∧ encodeRow numConversionsPerUser r = Some bytes
       ∧ decodeRow myRole numConversionsPerUser bytes = Some r.
Proof.
  intros (Hgroup & Hpts & Hsq & Hopp) Henc.
  assert (Hr : ∃ r, roleOf r = myRole
                    ∧ rowInRange numConversionsPerUser r
                    ∧ encodeRow numConversionsPerUser r = Some bytes).
  { unfold Encode.encodeAt in Henc. destruct myRole.
    - destruct (Encode.publisherRowAt d _) as [p|] eqn:Hp; [|done].
      injection Henc as <-. exists (RowOfPublisher p).
      split; [done|]. split; [|done]. simpl.
      unfold Encode.publisherRowAt in Hp.
      destruct (padArray (getOpportunityTimestamps d) _ _ !! _)
        as [ts|] eqn:Hts; [|done].
      cbn [mbind option_bind] in Hp.
      destruct (padArray (getControlPopulation d) _ _ !! _); [|done].
      destruct (padArray (getTestPopulation d) _ _ !! _); [|done].
      destruct (padArray (getNumImpressions d) _ _ !! _); [|done].
      destruct (padArray (getBreakdownIds d) _ _ !! _); [|done].
      cbn [mbind option_bind] in Hp. injection Hp as <-. simpl.
      pose proof (padArray_Forall is_uint32 _ (getNumRows d) 0 Hopp
                    ltac:(int_consts; lia)) as Hall.
      rewrite Forall_lookup in Hall. by eapply Hall.
    - destruct (Encode.partnerRowAt _ _ d _) as [[p cs]|] eqn:Hp; [|done].
      cbn [mbind option_bind] in Henc. exists (RowOfPartner p cs).
      split; [done|]. split; [|done]. simpl.
      split; [|split; [by eapply partnerRowAt_length|]].
      + unfold Encode.partnerRowAt in Hp.
        destruct (padNestedArrays (getPurchaseTimestampArrays d) _ _ _ !! _);
          [|done].
        cbn [mbind option_bind] in Hp.
        destruct (padArray (getGroupIds d) _ _ !! _) as [cohort|] eqn:Hc;
          [|done].
        cbn [mbind option_bind] in Hp.
        destruct (mapM _ _); [|done].
        cbn [mbind option_bind] in Hp. injection Hp as <- _. simpl.
        pose proof (padArray_Forall is_uint32 _ (getNumRows d) 0 Hgroup
                      ltac:(int_consts; lia)) as Hall.
        rewrite Forall_lookup in Hall. by eapply Hall.
      + apply Forall_lookup. intros j c Hj.
        destruct (partnerRowAt_conversion _ _ _ _ _ _ _ _ Hp Hj)
          as (_ & _ & ts & v & sq & Hts & _ & Hsqv & ->).
        split; [|split; [|split]]; simpl.
        * eapply (padNestedArrays_cell is_uint32); [exact Hpts | | exact Hts].
          int_consts; lia.
        * apply thresholdTimestampOf_range.
        * apply to_int32_range.
        * eapply (padNestedArrays_cell is_int64); [exact Hsq | | exact Hsqv].
          int_consts; lia. }
  destruct Hr as (r & Hrole & Hrange & Hencode).
  exists r. split; [done|]. split; [done|]. split; [done|].
  subst myRole. destruct r as [p|p cs]; simpl in *.
  - injection Hencode as <-. by rewrite decodePublisherRow_serialize.
  - destruct Hrange as (Hcohort & Hlen & Hcs).
    by rewrite (decodePartnerRow_serialize _ p cs).
Qed.

(** * Further properties of the code *)

(** ** shuffleAndGetUnionMap: order and definedness *)

(** The facts about the map behind the results on [shuffleAndGetUnionMap]:
    padding rows hold the sentinel, the [k]-th row of the permutation that
    is not padding holds [k], and no other entry differs from the
    sentinel. *)
Lemma shuffle_entries (n : nat) (randomPermutation : list nat)
    (dummyRows : list bool) :
  length dummyRows = n ->
  randomPermutation ≡ₚ seq 0 n ->
  Z.of_nat n <= INT32_MAX ->
  ∃ unionMap,
    Shuffle.shuffleAndGetUnionMap n randomPermutation dummyRows = Some unionMap
    ∧ length unionMap = n
    ∧ (∀ p, dummyRows !! p = Some true -> unionMap !! p = Some (-1))
    ∧ (∀ k p, filter (Shuffle.notDummy dummyRows) randomPermutation !! k
              = Some p ->
              unionMap !! p = Some (Z.of_nat k))
    ∧ (∀ i v, unionMap !! i = Some v -> v ≠ -1 ->
              ∃ k, filter (Shuffle.notDummy dummyRows) randomPermutation !! k
                   = Some i ∧ v = Z.of_nat k).
Proof.
  intros Hlen Hperm Hmax.
  assert (Hpl : length randomPermutation = n).
  { rewrite Hperm. apply length_seq. }
  assert (Hmem : ∀ p, p ∈ randomPermutation ↔ (p < n)%nat).
  { intros p. rewrite Hperm, elem_of_seq. lia. }
  assert (Hnd : NoDup randomPermutation).
  { rewrite Hperm. apply NoDup_seq. }
  destruct (assign_loop_spec dummyRows randomPermutation (replicate n 0) 0)
    as (m & Hrun & Hlm & _ & Hdum & Hrank); [done | | lia | lia |].
  { intros p Hp. apply Hmem in Hp. rewrite length_replicate. lia. }
  rewrite length_replicate in Hlm.
  exists m. split; [|split; [done|split; [|split; [done|]]]].
  - unfold Shuffle.shuffleAndGetUnionMap, Shuffle.step.
    pose proof (for_each_seq_lookup (Shuffle.assign dummyRows) []
                  randomPermutation (replicate n 0, 0)) as Hloop.
    simpl in Hloop. rewrite Hpl in Hloop. rewrite Hloop, Hrun. done.
  - intros p Hp. apply Hdum; [|done]. apply Hmem.
    rewrite <- Hlen. by eapply lookup_lt_Some.
  - intros i v Hi Hv.
    assert (Hin : (i < n)%nat) by (rewrite <- Hlm; by eapply lookup_lt_Some).
    destruct (lookup_lt_is_Some_2 dummyRows i) as [d Hd]; [lia|].
    destruct d.
    + rewrite (Hdum i) in Hi by (by try apply Hmem). congruence.
    + assert (Hi' : i ∈ filter (Shuffle.notDummy dummyRows) randomPermutation).
      { apply list_elem_of_filter. split; [done | by apply Hmem]. }
      apply list_elem_of_lookup in Hi' as [k Hk]. exists k. split; [done|].
      rewrite (Hrank k i Hk) in Hi. by injection Hi as <-.
Qed.

(** X1. The compacted indices follow the permutation: the row that is the
    [k]-th row not flagged as padding among
    [randomPermutation[0], randomPermutation[1], ...] gets index [k]. *)
Theorem shuffle_follows_permutation_order (n : nat)
    (randomPermutation : list nat) (dummyRows : list bool) :
  length dummyRows = n ->
  randomPermutation ≡ₚ seq 0 n ->
  Z.of_nat n <= INT32_MAX ->
  ∃ unionMap,
    Shuffle.shuffleAndGetUnionMap n randomPermutation dummyRows = Some unionMap
    ∧ ∀ k p, filter (Shuffle.notDummy dummyRows) randomPermutation !! k
             = Some p ->
             unionMap !! p = Some (Z.of_nat k).
Proof.
  intros Hlen Hperm Hmax.
  destruct (shuffle_entries n randomPermutation dummyRows Hlen Hperm Hmax)
    as (m & Hrun & _ & _ & Hrank & _).
  by exists m.
Qed.

Lemma permutation_3_0_4_1_2 : [3; 0; 4; 1; 2]%nat ≡ₚ seq 0 5.
Proof.
  apply NoDup_Permutation.
  - apply (bool_decide_unpack _). reflexivity.
  - apply NoDup_seq.
  - intros x. rewrite elem_of_seq. rewrite !elem_of_cons, elem_of_nil. lia.
Defined.

Lemma shuffle_follows_permutation_order_witness :
  ∃ unionMap,
    Shuffle.shuffleAndGetUnionMap 5 [3; 0; 4; 1; 2]%nat
      [false; true; false; false; true] = Some unionMap
    ∧ ∀ k p, filter (Shuffle.notDummy [false; true; false; false; true])
               [3; 0; 4; 1; 2]%nat !! k = Some p ->
             unionMap !! p = Some (Z.of_nat k).
Proof.
  apply (shuffle_follows_permutation_order 5 [3; 0; 4; 1; 2]%nat
           [false; true; false; false; true]).
  - reflexivity.
  - exact permutation_3_0_4_1_2.
  - int_consts. lia.
Defined.






Example shuffle_short_permutation :
  Shuffle.shuffleAndGetUnionMap 3 [1; 0]%nat [false; false; false] = None
  ∧ Shuffle.shuffleAndGetUnionMap 3 [1; 0; 3]%nat [false; false; false] = None
  ∧ Shuffle.shuffleAndGetUnionMap 0 [] [] = Some [].
Proof. vm_compute. done. Qed.

(** ** preparePlaintextData: sizes, positions and definedness *)

Lemma mapM_lookup {A B : Type} (f : A -> option B) (l : list A) (k : list B)
    (i : nat) :
  mapM f l = Some k -> k !! i = l !! i ≫= f.
Proof.
  intros Hm. apply mapM_Some_1 in Hm.
  destruct (l !! i) as [x|] eqn:Hx; cbn [mbind option_bind].
  - destruct (Forall2_lookup_l _ _ _ _ _ Hm Hx) as (y & Hy & Hf). congruence.
  - apply lookup_ge_None. rewrite <- (Forall2_length _ _ _ Hm).
    by apply lookup_ge_None.
Qed.

Lemma publisherLayout_length (r : PublisherRow) :
  length (Layout.publisherLayout r) = 5%nat.
Proof.
  unfold Layout.publisherLayout. cbn [length]. by rewrite littleEndian_length.
Qed.

Lemma partnerLayout_length (r : PartnerRow) (cs : list PartnerConversionRow) :
  length (Layout.partnerLayout r cs) = (5 + 20 * length cs)%nat.
Proof.
  unfold Layout.partnerLayout. cbn [length].
  rewrite length_app, littleEndian_length, concat_blocks_length. lia.
Qed.

(** X3. Every buffer returned by [preparePlaintextData] has the width
    [compactData] announces to [processPeersData] for that role:
    [PUBLISHER_ROW_BYTES] for the publisher and
    [PARTNER_CONVERSION_ROW_SIZE_BYTES * numConversionsPerUser +
    PARTNER_ROW_SIZE_BYTES] for the partner. *)
Theorem preparePlaintextData_row_width (numConversionsPerUser : nat)
    (window : Z) (myRole : Role) (d : InputData) (unionMap : list Z)
    (rows : list (list Z)) :
  Encode.preparePlaintextData numConversionsPerUser window myRole d unionMap
    = Some rows ->
  Forall (λ serialized,
            Z.of_nat (length serialized)
            = match myRole with
              | PUBLISHER => Z.of_nat PUBLISHER_ROW_BYTES
              | PARTNER => Compact.partnerRowWidth numConversionsPerUser
              end) rows.
Proof.
  unfold Encode.preparePlaintextData. intros Hrows.
  destruct (Encode.reverseUnionMapOf _ unionMap) as [rev|]; [|done].
  cbn [mbind option_bind] in Hrows. apply mapM_Some_1 in Hrows.
  apply Forall_lookup. intros i bytes Hi.
  destruct (Forall2_lookup_r _ _ _ _ _ Hrows Hi) as (x & _ & Henc).
  unfold Encode.encodeAt in Henc. destruct myRole.
  - destruct (Encode.publisherRowAt d _) as [p|]; [|done].
    injection Henc as <-.
    by rewrite serializePublisher_layout, publisherLayout_length.
  - destruct (Encode.partnerRowAt _ _ d _) as [[p cs]|] eqn:Hp; [|done].
    cbn [mbind option_bind] in Henc.
    pose proof (partnerRowAt_length _ _ _ _ _ _ Hp) as Hlen.
    rewrite serializePartner_layout in Henc by done. injection Henc as <-.
    rewrite partnerLayout_length, Hlen. unfold Compact.partnerRowWidth.
    unfold PARTNER_CONVERSION_ROW_SIZE_BYTES, PARTNER_ROW_SIZE_BYTES. lia.
Qed.

Lemma preparePlaintextData_row_width_witness :
  Forall (λ serialized,
            Z.of_nat (length serialized) = Compact.partnerRowWidth 2)
    [ [1; 7; 0; 0; 0] ++ replicate 20 0
      ++ [50; 0; 0; 0; 60; 0; 0; 0; 20; 0; 0; 0; 144; 1; 0; 0; 0; 0; 0; 0] ].
Proof.
  apply (preparePlaintextData_row_width 2 Scenarios.window PARTNER
           Scenarios.threeRows [0; -1; -1]).
  vm_compute. reflexivity.
Defined.

Lemma reverseStep_outside (unionMap rev : list Z) (sz : Z) (i : nat) (u : Z) :
  unionMap !! i = Some u -> 0 <= u -> ¬ (Z.to_nat u < length rev)%nat ->
  Encode.reverseStep unionMap (rev, sz) i = None.
Proof.
  intros Hu Hpos Hfit. unfold Encode.reverseStep. rewrite Hu.
  cbn [mbind option_bind]. apply Z.leb_le in Hpos. rewrite Hpos.
  by rewrite decide_False by done.
Qed.

(** What the inversion loop leaves in the reverse map: a compacted index
    no entry from [i0] on holds keeps its slot, an index held by an entry
    gets the position of the last entry that holds it; the size found
    bounds every compacted index from [i0] on and is the initial size or one
    of these indices. *)
Lemma reverse_loop_lookup (unionMap : list Z) (m i0 : nat) (rev rev' : list Z)
    (sz sz' : Z) :
  (i0 + m = length unionMap)%nat ->
  for_each (Encode.reverseStep unionMap) (seq i0 m) (rev, sz)
    = Some (rev', sz') ->
  length rev' = length rev
  ∧ (∀ v : nat, (∀ q, (i0 <= q)%nat -> unionMap !! q ≠ Some (Z.of_nat v)) ->
       rev' !! v = rev !! v)
  ∧ (∀ v p : nat, (i0 <= p)%nat -> unionMap !! p = Some (Z.of_nat v) ->
       (∀ q, (p < q)%nat -> unionMap !! q ≠ Some (Z.of_nat v)) ->
       rev' !! v = Some (Z.of_nat p))
  ∧ sz <= sz'
  ∧ (∀ q u, (i0 <= q)%nat -> unionMap !! q = Some u -> 0 <= u ->
       u <= sz' ∧ (Z.to_nat u < length rev)%nat)
  ∧ (sz' = sz ∨ ∃ q, (i0 <= q)%nat ∧ unionMap !! q = Some sz' ∧ 0 <= sz').
Proof.
  revert i0 rev sz. induction m as [|m IH]; intros i0 rev sz Hlen Hrun.
  - injection Hrun as <- <-. split; [done|]. split; [done|].
    split; [|split; [lia|split; [|by left]]].
    + intros v p Hp Hv. apply lookup_lt_Some in Hv. lia.
    + intros q u Hq Hu. apply lookup_lt_Some in Hu. lia.
  - cbn [seq] in Hrun. rewrite for_each_cons in Hrun.
    destruct (lookup_lt_is_Some_2 unionMap i0) as [u Hu]; [lia|].
    destruct (Z.le_gt_cases 0 u) as [Hsign|Hsign].
    + destruct (decide (Z.to_nat u < length rev)%nat) as [Hfit|Hfit].
      2:{ by rewrite (reverseStep_outside _ _ _ _ u) in Hrun by done. }
      rewrite (reverseStep_nonneg _ _ _ _ u) in Hrun by done.
      cbn [mbind option_bind] in Hrun.
      destruct (IH (S i0) _ _ ltac:(lia) Hrun)
        as (Hl & Hkeep & Hhit & Hsz & Hmax & Hfrom).
      rewrite length_insert in Hl, Hmax.
      split; [done|]. split; [|split; [|split; [lia|split]]].
      * intros v Hv. rewrite Hkeep by (intros q Hq; apply Hv; lia).
        apply list_lookup_insert_ne. intros Heq.
        apply (Hv i0); [lia|]. rewrite Hu. f_equal. lia.
      * intros v p Hp Hv Hlast.
        destruct (decide (p = i0)) as [->|Hne].
        -- rewrite Hkeep by (intros q Hq; apply Hlast; lia).
           assert (Z.to_nat u = v) as <- by (rewrite Hu in Hv; injection Hv; lia).
           by rewrite list_lookup_insert_eq.
        -- apply Hhit; [lia | done | done].
      * intros q v Hq Hv Hpos.
        destruct (decide (q = i0)) as [->|Hne];
          [|apply (Hmax q); [lia|done..]].
        assert (v = u) as -> by congruence. split; [lia|done].
      * destruct Hfrom as [->|(q & Hq & Hqv & Hpos)].
        -- destruct (Z.max_spec sz u) as [[_ ->]|[_ ->]]; [|by left].
           right. exists i0. done.
        -- right. exists q. split; [lia|done].
    + rewrite (reverseStep_negative _ _ _ _ u) in Hrun by done.
      cbn [mbind option_bind] in Hrun.
      destruct (IH (S i0) _ _ ltac:(lia) Hrun)
        as (Hl & Hkeep & Hhit & Hsz & Hmax & Hfrom).
      split; [done|]. split; [|split; [|split; [lia|split]]].
      * intros v Hv. apply Hkeep. intros q Hq. apply Hv. lia.
      * intros v p Hp Hv Hlast.
        destruct (decide (p = i0)) as [->|Hne]; [|apply Hhit; [lia|done..]].
        rewrite Hu in Hv. injection Hv. lia.
      * intros q v Hq Hv Hpos.
        destruct (decide (q = i0)) as [->|Hne];
          [|apply (Hmax q); [lia|done..]].
        assert (v = u) by congruence. lia.
      * destruct Hfrom as [->|(q & Hq & Hqv & Hpos)]; [by left|].
        right. exists q. split; [lia|done].
Qed.

(** The loop run by [reverseUnionMapOf], with the facts on its result. *)
Lemma reverseUnionMapOf_inv (numRows : nat) (unionMap rev : list Z) :
  Z.of_nat numRows <= INT32_MAX ->
  Encode.reverseUnionMapOf numRows unionMap = Some rev ->
  ∃ rev' sz',
    for_each (Encode.reverseStep unionMap) (seq 0 (length unionMap))
      (replicate numRows 0, 0) = Some (rev', sz')
    ∧ 0 <= sz'
    ∧ rev = resize (Z.to_nat (sz' + 1)) 0 rev'.
Proof.
  unfold Encode.reverseUnionMapOf. intros Hmax Hrev.
  destruct (for_each _ _ _) as [[rev' sz']|] eqn:Hrun; [|done].
  cbn [mbind option_bind] in Hrev.
  destruct (reverse_loop_lookup unionMap (length unionMap) 0 _ _ _ _
              eq_refl Hrun) as (_ & _ & _ & Hsz & Hbound & Hfrom).
  rewrite length_replicate in Hbound.
  assert (Hle : sz' + 1 <= INT32_MAX).
  { destruct Hfrom as [->|(q & Hq & Hqv & Hpos)]; [int_consts; lia|].
    destruct (Hbound q sz' Hq Hqv Hpos). lia. }
  rewrite to_int32_id in Hrev by (int_consts; lia).
  destruct (sz' + 1 <? 0) eqn:Hneg; [done|].
  injection Hrev as <-. by exists rev', sz'.
Qed.

(** X4. The buffer at compacted position [v] encodes the dataset row
    whose union-map entry is [v] (the last such row if several entries hold
    [v]); a position below the number of buffers that no entry holds
    encodes dataset row 0, the value the reverse map is initialised with. *)
Theorem preparePlaintextData_positions (numConversionsPerUser : nat)
    (window : Z) (myRole : Role) (d : InputData) (unionMap : list Z)
    (rows : list (list Z)) :
  Z.of_nat (getNumRows d) <= INT32_MAX ->
  Encode.preparePlaintextData numConversionsPerUser window myRole d unionMap
    = Some rows ->
  (∀ v p : nat,
     unionMap !! p = Some (Z.of_nat v) ->
     (∀ q, (p < q)%nat -> unionMap !! q ≠ Some (Z.of_nat v)) ->
     rows !! v
     = Encode.encodeAt numConversionsPerUser window myRole d (Z.of_nat p))
  ∧ (∀ v : nat,
       (v < length rows)%nat ->
       (∀ q, unionMap !! q ≠ Some (Z.of_nat v)) ->
       rows !! v = Encode.encodeAt numConversionsPerUser window myRole d 0).
Proof.
  unfold Encode.preparePlaintextData. intros Hmax Hrows.
  destruct (Encode.reverseUnionMapOf _ unionMap) as [rev|] eqn:Hrev; [|done].
  cbn [mbind option_bind] in Hrows.
  destruct (reverseUnionMapOf_inv _ _ _ Hmax Hrev)
    as (rev' & sz' & Hrun & Hpos & ->).
  destruct (reverse_loop_lookup unionMap (length unionMap) 0 _ _ _ _
              eq_refl Hrun) as (Hl & Hkeep & Hhit & _ & Hbound & _).
  rewrite length_replicate in Hl, Hbound.
  split.
  - intros v p Hp Hlast. rewrite (mapM_lookup _ _ _ v Hrows).
    destruct (Hbound p (Z.of_nat v) ltac:(lia) Hp ltac:(lia)) as [Hv _].
    pose proof (Hhit v p ltac:(lia) Hp Hlast) as Hv'.
    rewrite lookup_resize by (first [lia | by eapply lookup_lt_Some]).
    by rewrite Hv'.
  - intros v Hv Hnone. rewrite (mapM_lookup _ _ _ v Hrows).
    apply length_mapM in Hrows. rewrite length_resize in Hrows.
    assert (Hzero : resize (Z.to_nat (sz' + 1)) 0 rev' !! v = Some 0).
    { destruct (decide (v < length rev')%nat) as [Hin|Hout].
      - rewrite lookup_resize by lia.
        rewrite Hkeep by (intros q _; apply Hnone).
        apply lookup_replicate. split; [done|lia].
      - rewrite lookup_resize_new by lia. done. }
    by rewrite Hzero.
Qed.

Lemma preparePlaintextData_positions_witness :
  (∀ v p : nat,
     [1; -1; 2; 0; -1] !! p = Some (Z.of_nat v) ->
     (∀ q, (p < q)%nat -> [1; -1; 2; 0; -1] !! q ≠ Some (Z.of_nat v)) ->
     [[7; 44; 1; 0; 0]; [6; 100; 0; 0; 0]; [13; 200; 0; 0; 0]] !! v
     = Encode.encodeAt 2 Scenarios.window PUBLISHER Scenarios.fiveRows
         (Z.of_nat p))
  ∧ (∀ v : nat,
       (v < length [[7; 44; 1; 0; 0]; [6; 100; 0; 0; 0]; [13; 200; 0; 0; 0]])%nat ->
       (∀ q, [1; -1; 2; 0; -1] !! q ≠ Some (Z.of_nat v)) ->
       [[7; 44; 1; 0; 0]; [6; 100; 0; 0; 0]; [13; 200; 0; 0; 0]] !! v
       = Encode.encodeAt 2 Scenarios.window PUBLISHER Scenarios.fiveRows 0).
Proof.
  apply (preparePlaintextData_positions 2 Scenarios.window PUBLISHER
           Scenarios.fiveRows [1; -1; 2; 0; -1]).
  - int_consts. simpl. lia.
  - vm_compute. reflexivity.
Defined.

(** A union map with a gap: position 1 is held by no entry and the buffer
    there is the encoding of dataset row 0. *)
Example gap_encodes_row_0 :
  Encode.preparePlaintextData 2 Scenarios.window PUBLISHER Scenarios.threeRows
    [-1; 2; 0]
  = Some [[2; 0; 0; 0; 0]; [6; 100; 0; 0; 0]; [13; 200; 0; 0; 0]].
Proof. vm_compute. reflexivity. Qed.

(** Only rows of the dataset are encoded. *)
Lemma encodeAt_Some_row (numConversionsPerUser : nat) (window : Z)
    (myRole : Role) (d : InputData) (inputIndex : Z) (bytes : list Z) :
  Encode.encodeAt numConversionsPerUser window myRole d inputIndex
    = Some bytes ->
  (Z.to_nat inputIndex < getNumRows d)%nat.
Proof.
  unfold Encode.encodeAt. destruct myRole; intros H.
  - unfold Encode.publisherRowAt in H.
    destruct (padArray (getOpportunityTimestamps d) _ _ !! _) eqn:Hts;
      [|done].
    apply lookup_lt_Some in Hts. unfold padArray in Hts.
    by rewrite length_resize in Hts.
  - unfold Encode.partnerRowAt in H.
    destruct (padNestedArrays (getPurchaseTimestampArrays d) _ _ _ !! _)
      eqn:Hts; [|done].
    apply lookup_lt_Some in Hts. unfold padNestedArrays in Hts.
    by rewrite length_resize in Hts.
Qed.

(** X5. For a union map with one entry per dataset row,
    [preparePlaintextData] is defined exactly when the dataset has at least
    one row and every entry is below the number of rows: an empty dataset
    makes it read row 0 of empty columns, and a larger entry makes it write
    outside the reverse map. *)
Theorem preparePlaintextData_defined_iff (numConversionsPerUser : nat)
    (window : Z) (myRole : Role) (d : InputData) (unionMap : list Z) :
  length unionMap = getNumRows d ->
  Z.of_nat (getNumRows d) <= INT32_MAX ->
  is_Some (Encode.preparePlaintextData numConversionsPerUser window myRole d
             unionMap)
  ↔ (1 <= getNumRows d)%nat
    ∧ ∀ u, u ∈ unionMap -> u < Z.of_nat (getNumRows d).
Proof.
  intros Hlen Hmax. split.
  - intros [rows Hrows]. unfold Encode.preparePlaintextData in Hrows.
    destruct (Encode.reverseUnionMapOf _ unionMap) as [rev|] eqn:Hrev;
      [|done].
    cbn [mbind option_bind] in Hrows.
    destruct (reverseUnionMapOf_inv _ _ _ Hmax Hrev)
      as (rev' & sz' & Hrun & Hpos & ->).
    destruct (reverse_loop_lookup unionMap (length unionMap) 0 _ _ _ _
                eq_refl Hrun) as (_ & _ & _ & _ & Hbound & _).
    rewrite length_replicate in Hbound. split.
    + destruct (lookup_lt_is_Some_2 (resize (Z.to_nat (sz' + 1)) 0 rev') 0)
        as [x Hx]; [rewrite length_resize; lia|].
      pose proof (mapM_lookup _ _ _ 0 Hrows) as H0. rewrite Hx in H0.
      cbn [mbind option_bind] in H0.
      destruct (Encode.encodeAt _ _ myRole d x) as [bytes|] eqn:Henc.
      * apply encodeAt_Some_row in Henc. lia.
      * apply length_mapM in Hrows. rewrite length_resize in Hrows.
        apply lookup_ge_None in H0. lia.
    + intros u Hu. apply list_elem_of_lookup in Hu as [q Hq].
      destruct (Z.le_gt_cases 0 u) as [Hsign|Hsign]; [|lia].
      destruct (Hbound q u ltac:(lia) Hq Hsign). lia.
  - intros [Hrows Hfit].
    destruct (reverse_loop_spec unionMap (length unionMap) 0
                (replicate (getNumRows d) 0) 0)
      as (rev & sz & Hrun & Hl & Hsz & Hle & Hfrom & Hrev); [done | |].
    { intros i u Hu Hpos. rewrite length_replicate.
      assert (u < Z.of_nat (getNumRows d)); [|lia].
      apply Hfit. apply list_elem_of_lookup. by exists i. }
    unfold Encode.preparePlaintextData, Encode.reverseUnionMapOf.
    rewrite Hrun. cbn [mbind option_bind].
    assert (Hsz' : sz < Z.of_nat (getNumRows d)).
    { destruct Hfrom as [->|[Hin _]]; [lia | by apply Hfit]. }
    rewrite to_int32_id by (int_consts; lia).
    destruct (sz + 1 <? 0) eqn:Hneg; [apply Z.ltb_lt in Hneg; lia|].
    cbn [mbind option_bind]. apply mapM_is_Some_2.
    apply Forall_forall. intros x Hx. apply encodeAt_is_Some.
    rewrite resize_spec in Hx. apply elem_of_app in Hx as [Hx|Hx].
    + assert (Hx' : x ∈ rev).
      { apply elem_of_take in Hx as (i & Hi & _).
        apply list_elem_of_lookup. by exists i. }
      destruct (Hrev x Hx') as [Hinit|Hrange]; [|lia].
      apply elem_of_replicate_inv in Hinit. lia.
    + apply elem_of_replicate_inv in Hx. lia.
Qed.

Example preparePlaintextData_undefined :
  Encode.preparePlaintextData 2 Scenarios.window PUBLISHER
    Scenarios.threeRows [0; 3; 1] = None
  ∧ Encode.preparePlaintextData 2 Scenarios.window PARTNER
      {| getNumRows := 0; getDummyRows := []; getGroupIds := [];
         getPurchaseTimestampArrays := []; getPurchaseValueArrays := [];
         getPurchaseValueSquaredArrays := []; getOpportunityTimestamps := [];
         getControlPopulation := []; getTestPopulation := [];
         getNumImpressions := []; getBreakdownIds := [] |} [] = None.
Proof. vm_compute. done. Qed.

Lemma preparePlaintextData_defined_iff_witness :
  is_Some (Encode.preparePlaintextData 2 Scenarios.window PARTNER
             Scenarios.threeRows [2; 0; 1])
  ↔ (1 <= getNumRows Scenarios.threeRows)%nat
    ∧ ∀ u, u ∈ [2; 0; 1] -> u < Z.of_nat (getNumRows Scenarios.threeRows).
Proof.
  apply (preparePlaintextData_defined_iff 2 Scenarios.window PARTNER
           Scenarios.threeRows [2; 0; 1]).
  - reflexivity.
  - int_consts. simpl. lia.
Defined.

Lemma preparePlaintextData_row_count_witness :
  ∃ rows,
    Encode.preparePlaintextData 2 Scenarios.window PUBLISHER
      Scenarios.fiveRows [1; -1; 2; 0; -1] = Some rows
    ∧ length rows = Nat.max 3 1.
Proof.
  apply (preparePlaintextData_row_count 2 Scenarios.window PUBLISHER
           Scenarios.fiveRows [1; -1; 2; 0; -1] 3).
  - reflexivity.
  - simpl. lia.
  - int_consts. simpl. lia.
  - intros v. unfold Shuffle.nonSentinel.
    change (filter (λ v : Z, v ≠ -1) [1; -1; 2; 0; -1]) with [1; 2; 0].
    rewrite !elem_of_cons, elem_of_nil. simpl. lia.
Defined.

Lemma encodeAt_decodes_witness :
  ∃ r, roleOf r = PARTNER
       ∧ rowInRange 2 r
       ∧ encodeRow 2 r
         = Some ([1; 8; 0; 0; 0]
                 ++ [255; 255; 255; 255; 9; 0; 0; 0; 5; 0; 0; 0;
                     0; 0; 0; 0; 0; 1; 0; 0]
                 ++ [0; 0; 0; 0; 0; 0; 0; 0; 255; 255; 255; 127;
                     9; 0; 0; 0; 0; 0; 0; 0])
       ∧ decodeRow PARTNER 2
           ([1; 8; 0; 0; 0]
            ++ [255; 255; 255; 255; 9; 0; 0; 0; 5; 0; 0; 0;
                0; 0; 0; 0; 0; 1; 0; 0]
            ++ [0; 0; 0; 0; 0; 0; 0; 0; 255; 255; 255; 127;
                9; 0; 0; 0; 0; 0; 0; 0])
         = Some r.
Proof.
  apply (encodeAt_decodes 2 Scenarios.window PARTNER Scenarios.threeRows 1).
  - unfold datasetInRange. simpl.
    repeat split; repeat constructor; int_consts; lia.
  - vm_compute. reflexivity.
Defined.

(** ** shuffleAndGetUnionMap followed by preparePlaintextData *)

(** The reverse map of a shuffled union map is the list of the rows that
    are not padding, in the order the permutation visits them. *)
Lemma reverseUnionMapOf_shuffle (n : nat) (randomPermutation : list nat)
    (dummyRows : list bool) :
  length dummyRows = n ->
  randomPermutation ≡ₚ seq 0 n ->
  Z.of_nat n <= INT32_MAX ->
  filter (Shuffle.notDummy dummyRows) randomPermutation ≠ [] ->
  ∃ unionMap,
    Shuffle.shuffleAndGetUnionMap n randomPermutation dummyRows = Some unionMap
    ∧ Encode.reverseUnionMapOf n unionMap
      = Some (Z.of_nat <$> filter (Shuffle.notDummy dummyRows)
                             randomPermutation).
Proof.
  intros Hlen Hperm Hmax Hne.
  destruct (shuffle_entries n randomPermutation dummyRows Hlen Hperm Hmax)
    as (m & Hshuffle & Hlm & Hdum & Hrank & Hentry).
  set (nd := filter (Shuffle.notDummy dummyRows) randomPermutation) in *.
  assert (Hndn : (length nd <= n)%nat).
  { unfold nd. etrans; [apply length_filter|].
    rewrite Hperm, length_seq. done. }
  assert (Hnd0 : (0 < length nd)%nat) by (destruct nd; [done | simpl; lia]).
  assert (Hnn : ∀ i u, m !! i = Some u -> 0 <= u ->
                       ∃ k, nd !! k = Some i ∧ u = Z.of_nat k).
  { intros i u Hi Hpos. apply (Hentry i u Hi). lia. }
  exists m. split; [done|].
  destruct (reverse_loop_spec m (length m) 0 (replicate n 0) 0)
    as (rev & sz & Hrun & _ & _ & _ & _ & _); [done | |].
  { intros i u Hu Hpos. rewrite length_replicate.
    destruct (Hnn i u Hu Hpos) as (k & Hk & ->).
    apply lookup_lt_Some in Hk. lia. }
  destruct (reverse_loop_lookup m (length m) 0 _ _ _ _ eq_refl Hrun)
    as (Hl & _ & Hhit & Hsz & Hbound & Hfrom).
  rewrite length_replicate in Hl.
  assert (Hsize : sz + 1 = Z.of_nat (length nd)).
  { destruct (lookup_lt_is_Some_2 nd (length nd - 1)) as [p Hp]; [lia|].
    pose proof (Hrank _ _ Hp) as Hlast.
    destruct (Hbound p _ ltac:(lia) Hlast ltac:(lia)) as [Hge _].
    destruct Hfrom as [->|(q & _ & Hq & Hpos)]; [lia|].
    destruct (Hnn q sz Hq Hpos) as (k & Hk & ->).
    apply lookup_lt_Some in Hk. lia. }
  unfold Encode.reverseUnionMapOf. rewrite Hrun. cbn [mbind option_bind].
  rewrite to_int32_id by (int_consts; lia). rewrite Hsize.
  destruct (Z.of_nat (length nd) <? 0) eqn:Hneg;
    [apply Z.ltb_lt in Hneg; lia|].
  f_equal. rewrite Nat2Z.id. apply list_eq. intros k.
  rewrite list_lookup_fmap.
  destruct (nd !! k) as [p|] eqn:Hk; cbn [fmap option_fmap option_map].
  - assert (Hrevk : rev !! k = Some (Z.of_nat p)).
    { apply Hhit; [lia | by apply Hrank |].
      intros q Hq Hqk.
      destruct (Hnn q _ Hqk ltac:(lia)) as (k' & Hk' & Heq).
      assert (k' = k) by lia. subst k'. rewrite Hk in Hk'.
      injection Hk' as ->. lia. }
    rewrite lookup_resize; [done | by eapply lookup_lt_Some
                           | by eapply lookup_lt_Some].
  - apply lookup_resize_old. by apply lookup_ge_None.
Qed.

(** X6. After [shuffleAndGetUnionMap], [preparePlaintextData] encodes
    exactly the rows that are not padding, each once, in the order the
    permutation visits them, provided the dataset has a row that is not
    padding; it returns as many buffers as there are such rows. *)
Theorem shuffle_then_prepare (numConversionsPerUser : nat) (window : Z)
    (myRole : Role) (d : InputData) (randomPermutation : list nat) :
  length (getDummyRows d) = getNumRows d ->
  randomPermutation ≡ₚ seq 0 (getNumRows d) ->
  Z.of_nat (getNumRows d) <= INT32_MAX ->
  filter (Shuffle.notDummy (getDummyRows d)) randomPermutation ≠ [] ->
  ∃ unionMap rows,
    Shuffle.shuffleAndGetUnionMap (getNumRows d) randomPermutation
      (getDummyRows d) = Some unionMap
    ∧ Encode.preparePlaintextData numConversionsPerUser window myRole d
        unionMap = Some rows
    ∧ Forall2 (λ p serialized,
                 Encode.encodeAt numConversionsPerUser window myRole d
                   (Z.of_nat p) = Some serialized)
        (filter (Shuffle.notDummy (getDummyRows d)) randomPermutation) rows
    ∧ length rows
      = (getNumRows d - Shuffle.numDummy (getDummyRows d))%nat.
Proof.
  intros Hlen Hperm Hmax Hne.
  destruct (reverseUnionMapOf_shuffle _ _ _ Hlen Hperm Hmax Hne)
    as (m & Hshuffle & Hrev).
  set (nd := filter (Shuffle.notDummy (getDummyRows d)) randomPermutation)
    in *.
  destruct (mapM_is_Some_2
              (Encode.encodeAt numConversionsPerUser window myRole d)
              (Z.of_nat <$> nd)) as [rows Hrows].
  { apply Forall_forall. intros x Hx.
    apply list_elem_of_fmap in Hx as (p & -> & Hp).
    apply encodeAt_is_Some. apply list_elem_of_filter in Hp as [_ Hp].
    rewrite Hperm in Hp. apply elem_of_seq in Hp. lia. }
  exists m, rows. split; [done|].
  assert (Hall : Forall2 (λ p serialized,
                   Encode.encodeAt numConversionsPerUser window myRole d
                     (Z.of_nat p) = Some serialized) nd rows).
  { apply mapM_Some_1 in Hrows. by apply Forall2_fmap_l in Hrows. }
  split; [|split; [done|]].
  - unfold Encode.preparePlaintextData. rewrite Hrev. done.
  - rewrite <- (Forall2_length _ _ _ Hall). unfold nd. rewrite Hperm.
    pose proof (notDummy_count (getDummyRows d)) as Hc.
    rewrite Hlen in Hc. lia.
Qed.

Lemma shuffle_then_prepare_witness :
  ∃ unionMap rows,
    Shuffle.shuffleAndGetUnionMap (getNumRows Scenarios.fiveRows)
      [3; 0; 4; 1; 2]%nat (getDummyRows Scenarios.fiveRows) = Some unionMap
    ∧ Encode.preparePlaintextData 2 Scenarios.window PUBLISHER
        Scenarios.fiveRows unionMap = Some rows
    ∧ Forall2 (λ p serialized,
                 Encode.encodeAt 2 Scenarios.window PUBLISHER
                   Scenarios.fiveRows (Z.of_nat p) = Some serialized)
        (filter (Shuffle.notDummy (getDummyRows Scenarios.fiveRows))
           [3; 0; 4; 1; 2]%nat) rows
    ∧ length rows
      = (getNumRows Scenarios.fiveRows
         - Shuffle.numDummy (getDummyRows Scenarios.fiveRows))%nat.
Proof.
  apply (shuffle_then_prepare 2 Scenarios.window PUBLISHER Scenarios.fiveRows
           [3; 0; 4; 1; 2]%nat).
  - reflexivity.
  - exact permutation_3_0_4_1_2.
  - int_consts. simpl. lia.
  - vm_compute. discriminate.
Defined.

(** ** deserializeSecretSharedData: bounds *)

Lemma reconstruct_loop_is_Some (buffer : list Z) (offset m k : nat) (val : Z) :
  is_Some (for_each (λ val i, b ← buffer !! (offset + i)%nat;
                              Some (Z.lor val (Z.shiftl b (8 * Z.of_nat i))))
             (seq k m) val)
  ↔ m = 0%nat ∨ (offset + k + m <= length buffer)%nat.
Proof.
  revert k val. induction m as [|m IH]; intros k val.
  - split; [by left | by eexists].
  - cbn [seq]. rewrite for_each_cons.
    destruct (buffer !! (offset + k)%nat) as [b|] eqn:Hb;
      cbn [mbind option_bind].
    + rewrite IH. apply lookup_lt_Some in Hb. split.
      * intros [->|Hle]; right; lia.
      * intros [Hm|Hle]; [done|]. destruct m; [by left | right; lia].
    + apply lookup_ge_None in Hb. split.
      * intros Hsome. by apply is_Some_None in Hsome.
      * intros [Hm|Hle]; [done | lia].
Qed.

Lemma reconstructFromBytes_is_Some (T : IntType) (buffer : list Z)
    (offset : nat) :
  is_Some (reconstructFromBytes T buffer offset)
  ↔ (offset + sizeof T <= length buffer)%nat.
Proof.
  unfold reconstructFromBytes. rewrite fmap_is_Some.
  rewrite reconstruct_loop_is_Some. destruct T; simpl; lia.
Qed.

Lemma decodePublisherRow_is_Some (bytes : list Z) :
  is_Some (Decode.decodePublisherRow bytes) ↔ (5 <= length bytes)%nat.
Proof.
  unfold Decode.decodePublisherRow. split.
  - intros [r Hr]. destruct (bytes !! 0%nat); [|done].
    cbn [mbind option_bind] in Hr.
    destruct (reconstructFromBytes UInt32 bytes 1) eqn:Hts; [|done].
    assert (Hsome : is_Some (reconstructFromBytes UInt32 bytes 1))
      by (by rewrite Hts).
    apply reconstructFromBytes_is_Some in Hsome. simpl in Hsome. lia.
  - intros Hlen.
    destruct (lookup_lt_is_Some_2 bytes 0) as [flags ->]; [lia|].
    cbn [mbind option_bind].
    destruct (proj2 (reconstructFromBytes_is_Some UInt32 bytes 1))
      as [ts ->]; [simpl; lia|].
    by eexists.
Qed.

Lemma decodeConversionRow_is_Some (bytes : list Z) (j : nat) :
  is_Some (Decode.decodeConversionRow bytes j)
  ↔ (25 + 20 * j <= length bytes)%nat.
Proof.
  unfold Decode.decodeConversionRow, PARTNER_CONVERSION_ROW_SIZE_BYTES.
  cbv zeta. split.
  - intros [c Hc].
    destruct (reconstructFromBytes UInt32 bytes (5 + j * 20)); [|done].
    cbn [mbind option_bind] in Hc.
    destruct (reconstructFromBytes UInt32 bytes (9 + j * 20)); [|done].
    cbn [mbind option_bind] in Hc.
    destruct (reconstructFromBytes Int32 bytes (13 + j * 20)); [|done].
    cbn [mbind option_bind] in Hc.
    destruct (reconstructFromBytes Int64 bytes (17 + j * 20)) eqn:Hsq;
      [|done].
    assert (Hsome : is_Some (reconstructFromBytes Int64 bytes (17 + j * 20)))
      by (by rewrite Hsq).
    apply reconstructFromBytes_is_Some in Hsome. simpl in Hsome. lia.
  - intros Hlen.
    destruct (proj2 (reconstructFromBytes_is_Some UInt32 bytes (5 + j * 20)))
      as [ts ->]; [simpl; lia|].
    cbn [mbind option_bind].
    destruct (proj2 (reconstructFromBytes_is_Some UInt32 bytes (9 + j * 20)))
      as [thr ->]; [simpl; lia|].
    cbn [mbind option_bind].
    destruct (proj2 (reconstructFromBytes_is_Some Int32 bytes (13 + j * 20)))
      as [v ->]; [simpl; lia|].
    cbn [mbind option_bind].
    destruct (proj2 (reconstructFromBytes_is_Some Int64 bytes (17 + j * 20)))
      as [sq ->]; [simpl; lia|].
    by eexists.
Qed.

Lemma decodePartnerRow_is_Some (numConversionsPerUser : nat)
    (bytes : list Z) :
  is_Some (Decode.decodePartnerRow numConversionsPerUser bytes)
  ↔ (5 + 20 * numConversionsPerUser <= length bytes)%nat.
Proof.
  unfold Decode.decodePartnerRow. split.
  - intros [r Hr]. destruct (bytes !! 0%nat); [|done].
    cbn [mbind option_bind] in Hr.
    destruct (reconstructFromBytes UInt32 bytes 1) eqn:Hcohort; [|done].
    cbn [mbind option_bind] in Hr.
    destruct (mapM _ _) as [cs|] eqn:Hcs; [|done].
    assert (Hsome : is_Some (reconstructFromBytes UInt32 bytes 1))
      by (by rewrite Hcohort).
    apply reconstructFromBytes_is_Some in Hsome. simpl in Hsome.
    destruct numConversionsPerUser as [|n]; [lia|].
    assert (Hlast : is_Some (Decode.decodeConversionRow bytes n)).
    { assert (Hall : is_Some (mapM (Decode.decodeConversionRow bytes)
                                (seq 0 (S n)))) by (by rewrite Hcs).
      apply mapM_is_Some_1 in Hall. rewrite Forall_forall in Hall.
      apply (Hall n). apply elem_of_seq. lia. }
    apply decodeConversionRow_is_Some in Hlast. lia.
  - intros Hlen.
    destruct (lookup_lt_is_Some_2 bytes 0) as [flag ->]; [lia|].
    cbn [mbind option_bind].
    destruct (proj2 (reconstructFromBytes_is_Some UInt32 bytes 1))
      as [cohort ->]; [simpl; lia|].
    cbn [mbind option_bind].
    destruct (mapM_is_Some_2 (Decode.decodeConversionRow bytes)
                (seq 0 numConversionsPerUser)) as [cs ->].
    { apply Forall_forall. intros j Hj. apply elem_of_seq in Hj.
      apply decodeConversionRow_is_Some. lia. }
    by eexists.
Qed.

(** X7. The decoder reads exactly the bytes the encoder writes: a
    publisher buffer is decoded when it holds at least [PUBLISHER_ROW_BYTES]
    bytes and a partner buffer when it holds at least
    [PARTNER_ROW_SIZE_BYTES + PARTNER_CONVERSION_ROW_SIZE_BYTES *
    numConversionsPerUser] bytes; on a shorter buffer a field is read past
    its end. *)
Theorem decode_defined_iff (numConversionsPerUser : nat) (bytes : list Z) :
  (is_Some (Decode.decodePublisherRow bytes)
   ↔ (PUBLISHER_ROW_BYTES <= length bytes)%nat)
  ∧ (is_Some (Decode.decodePartnerRow numConversionsPerUser bytes)
     ↔ (PARTNER_ROW_SIZE_BYTES
        + PARTNER_CONVERSION_ROW_SIZE_BYTES * numConversionsPerUser
        <= length bytes)%nat).
Proof.
  split; [apply decodePublisherRow_is_Some | apply decodePartnerRow_is_Some].
Qed.

Example decode_short_buffers :
  Decode.decodePublisherRow [13; 200; 0; 0] = None
  ∧ Decode.decodePartnerRow 1 (replicate 24 0) = None
  ∧ is_Some (Decode.decodePartnerRow 1 (replicate 25 0)).
Proof. vm_compute. split; [done|]. split; [done|]. by eexists. Qed.

(** The body of the row loop of [deserializeSecretSharedData]. *)
Lemma decode_cell_is_Some (numConversionsPerUser : nat)
    (publisherBytes partnerBytes : list (list Z)) (i : nat) :
  is_Some (publisherByteShares ← publisherBytes !! i;
           partnerByteShares ← partnerBytes !! i;
           publisherRow ← Decode.decodePublisherRow publisherByteShares;
           partner ← Decode.decodePartnerRow numConversionsPerUser
                       partnerByteShares;
           Some (partner, publisherRow))
  ↔ ∃ pb qb, publisherBytes !! i = Some pb ∧ partnerBytes !! i = Some qb
             ∧ (5 <= length pb)%nat
             ∧ (5 + 20 * numConversionsPerUser <= length qb)%nat.
Proof.
  split.
  - intros [r Hr].
    destruct (publisherBytes !! i) as [pb|]; [|done].
    cbn [mbind option_bind] in Hr.
    destruct (partnerBytes !! i) as [qb|]; [|done].
    cbn [mbind option_bind] in Hr.
    destruct (Decode.decodePublisherRow pb) as [p|] eqn:Hp; [|done].
    cbn [mbind option_bind] in Hr.
    destruct (Decode.decodePartnerRow _ qb) as [q|] eqn:Hq; [|done].
    exists pb, qb. split; [done|]. split; [done|]. split.
    + apply decodePublisherRow_is_Some. by rewrite Hp.
    + apply (decodePartnerRow_is_Some numConversionsPerUser). by rewrite Hq.
  - intros (pb & qb & -> & -> & Hpb & Hqb). cbn [mbind option_bind].
    destruct (proj2 (decodePublisherRow_is_Some pb) Hpb) as [p ->].
    cbn [mbind option_bind].
    destruct (proj2 (decodePartnerRow_is_Some numConversionsPerUser qb) Hqb)
      as [q ->].
    by eexists.
Qed.

(** When the row loop of [deserializeSecretSharedData] completes. *)
Lemma deserialize_is_Some (numRows numConversionsPerUser : nat)
    (publisherBytes partnerBytes : list (list Z)) :
  is_Some (Decode.deserializeSecretSharedData numRows numConversionsPerUser
             publisherBytes partnerBytes)
  ↔ ∀ i, (i < numRows)%nat ->
         ∃ pb qb, publisherBytes !! i = Some pb ∧ partnerBytes !! i = Some qb
                  ∧ (PUBLISHER_ROW_BYTES <= length pb)%nat
                  ∧ (PARTNER_ROW_SIZE_BYTES
                     + PARTNER_CONVERSION_ROW_SIZE_BYTES
                       * numConversionsPerUser <= length qb)%nat.
Proof.
  unfold Decode.deserializeSecretSharedData.
  unfold PUBLISHER_ROW_BYTES, PARTNER_ROW_SIZE_BYTES,
    PARTNER_CONVERSION_ROW_SIZE_BYTES.
  split.
  - intros [r Hr] i Hi.
    destruct (mapM _ (seq 0 numRows)) as [rows|] eqn:Hrows; [|done].
    assert (Hall : is_Some (mapM
      (λ i, publisherByteShares ← publisherBytes !! i;
            partnerByteShares ← partnerBytes !! i;
            publisherRow ← Decode.decodePublisherRow publisherByteShares;
            partner ← Decode.decodePartnerRow numConversionsPerUser
                        partnerByteShares;
            Some (partner, publisherRow)) (seq 0 numRows)))
      by (by rewrite Hrows).
    apply mapM_is_Some_1 in Hall. rewrite Forall_forall in Hall.
    apply decode_cell_is_Some. apply (Hall i). apply elem_of_seq. lia.
  - intros Hall.
    destruct (mapM_is_Some_2
      (λ i, publisherByteShares ← publisherBytes !! i;
            partnerByteShares ← partnerBytes !! i;
            publisherRow ← Decode.decodePublisherRow publisherByteShares;
            partner ← Decode.decodePartnerRow numConversionsPerUser
                        partnerByteShares;
            Some (partner, publisherRow)) (seq 0 numRows)) as [rows ->].
    + apply Forall_forall. intros i Hi. apply elem_of_seq in Hi.
      apply decode_cell_is_Some. apply Hall. lia.
    + by eexists.
Qed.

(** X8. [deserializeSecretSharedData] is defined exactly when each of the
    first [numRows] rows has a publisher buffer of at least
    [PUBLISHER_ROW_BYTES] bytes and a partner buffer of at least the partner
    row width; buffers after the first [numRows] are not read. *)
Theorem deserialize_defined_iff (numRows numConversionsPerUser : nat)
    (publisherBytes partnerBytes : list (list Z)) :
  is_Some (Decode.deserializeSecretSharedData numRows numConversionsPerUser
             publisherBytes partnerBytes)
  ↔ ∀ i, (i < numRows)%nat ->
         ∃ pb qb, publisherBytes !! i = Some pb ∧ partnerBytes !! i = Some qb
                  ∧ (PUBLISHER_ROW_BYTES <= length pb)%nat
                  ∧ (PARTNER_ROW_SIZE_BYTES
                     + PARTNER_CONVERSION_ROW_SIZE_BYTES
                       * numConversionsPerUser <= length qb)%nat.
Proof. apply deserialize_is_Some. Qed.

Example deserialize_row_counts :
  Decode.deserializeSecretSharedData 2 0 [[0; 0; 0; 0; 0]; [1; 5; 0; 0; 0]]
    [[1; 7; 0; 0; 0]] = None
  ∧ Decode.deserializeSecretSharedData 1 0
      [[0; 0; 0; 0; 0]; [1; 5; 0; 0; 0]] [[1; 7; 0; 0; 0]]
    = Some ([ {| anyValidPurchaseTimestamp := true; cohortGroupId := 7 |} ],
            [[]],
            [ {| breakdownId := false; controlPopulation := false;
                 isValidOpportunityTimestamp := false; testReach := false;
                 opportunityTimestamp := 0 |} ])
  ∧ Decode.deserializeSecretSharedData 0 3 [] [] = Some ([], [], []).
Proof. vm_compute. done. Qed.


(** ** The column extractors *)










(** ** extractCompactedData *)






(** ** compactData: what a returned pair guarantees *)

(** The result of [compactData] once both exchanger calls are known. *)
Lemma compactData_result {SecString : Type}
    `{!Compact.Collaborators SecString} (myRole : Role)
    (numConversionsPerUser : nat) (intersectionMap : list Z)
    (plaintextData : list (list Z)) (trace : list Compact.Event)
    (publisherDataShares partnerDataShares : SecString) :
  (Compact.compactData myRole numConversionsPerUser intersectionMap
     plaintextData trace).1
  = Compact.Returns (publisherDataShares, partnerDataShares) ->
  Compact.exchangerReturns myRole numConversionsPerUser intersectionMap
    plaintextData publisherDataShares partnerDataShares
  ∧ wrap_unsigned 64 (Compact.expectedIntersectionSizeOf intersectionMap)
    = Compact.getBatchSize publisherDataShares
  ∧ wrap_unsigned 64 (Compact.expectedIntersectionSizeOf intersectionMap)
    = Compact.getBatchSize partnerDataShares.
Proof.
  unfold Compact.compactData, Compact.exchangerReturns.
  unfold mbind, Compact.M_bind, Compact.call, mret, Compact.M_ret,
    Compact.throw.
  destruct myRole; cbn beta iota.
  - destruct (Compact.processMyData plaintextData _) as [pub|what];
      cbn beta iota; [|done].
    destruct (Compact.processPeersData _ intersectionMap _) as [par|what];
      cbn beta iota; [|done].
    repeat case_decide; cbn; intros Hret; [done | done |].
    injection Hret as <- <-.
    split; [done|]. split; done.
  - destruct (Compact.processPeersData _ intersectionMap _) as [pub|what];
      cbn beta iota; [|done].
    destruct (Compact.processMyData plaintextData _) as [par|what];
      cbn beta iota; [|done].
    repeat case_decide; cbn; intros Hret; [done | done |].
    injection Hret as <- <-.
    split; [done|]. split; done.
Qed.

(** X12. When [compactData] returns a pair, both share buffers have the
    same batch size, the number of entries of the intersection map other
    than -1, and they are the buffers the two data-processor calls
    returned. *)
Theorem compactData_returns_checked {SecString : Type}
    `{!Compact.Collaborators SecString} (myRole : Role)
    (numConversionsPerUser : nat) (intersectionMap : list Z)
    (plaintextData : list (list Z)) (trace : list Compact.Event)
    (publisherDataShares partnerDataShares : SecString) :
  Z.of_nat (length intersectionMap) <= INT32_MAX ->
  (Compact.compactData myRole numConversionsPerUser intersectionMap
     plaintextData trace).1
  = Compact.Returns (publisherDataShares, partnerDataShares) ->
  Compact.getBatchSize publisherDataShares
  = Compact.matchedCount intersectionMap
  ∧ Compact.getBatchSize partnerDataShares
    = Compact.matchedCount intersectionMap
  ∧ Compact.exchangerReturns myRole numConversionsPerUser intersectionMap
      plaintextData publisherDataShares partnerDataShares.
Proof.
  intros Hmax Hres.
  destruct (compactData_result _ _ _ _ _ _ _ Hres) as (Hex & Hpub & Hpar).
  rewrite expectedIntersectionSizeOf_count in Hpub, Hpar by done.
  pose proof (matchedCount_bounds intersectionMap) as Hb.
  assert (Hwrap : wrap_unsigned 64 (Compact.matchedCount intersectionMap)
                  = Compact.matchedCount intersectionMap).
  { int_consts. apply Z.mod_small. lia. }
  rewrite Hwrap in Hpub, Hpar. done.
Qed.

Lemma compactData_returns_checked_witness :
  Compact.getBatchSize (Collaborators := Compact.stubCollaborators 2 2) 2
  = Compact.matchedCount [0; -1; 1]
  ∧ Compact.getBatchSize (Collaborators := Compact.stubCollaborators 2 2) 2
    = Compact.matchedCount [0; -1; 1]
  ∧ Compact.exchangerReturns (collaborators := Compact.stubCollaborators 2 2)
      PARTNER 2 [0; -1; 1] [[]; []; []] 2 2.
Proof.
  apply (@compactData_returns_checked Z (Compact.stubCollaborators 2 2)
           PARTNER 2 [0; -1; 1] [[]; []; []] [] 2 2).
  - int_consts. simpl. lia.
  - vm_compute. reflexivity.
Defined.

(** X13. With a data processor whose [processMyData] returns as many rows
    as the [outputSize] it is given, [compactData] throws whenever the
    intersection map has a -1 entry: the size it passes is the length of the
    map, and the size it then checks is the number of entries other than
    -1. *)
Theorem compactData_throws_on_unmatched {SecString : Type}
    `{!Compact.Collaborators SecString} (myRole : Role)
    (numConversionsPerUser : nat) (intersectionMap : list Z)
    (plaintextData : list (list Z)) (trace : list Compact.Event) :
  Z.of_nat (length intersectionMap) <= INT32_MAX ->
  (∀ outputSize shares,
     Compact.processMyData plaintextData outputSize = Compact.Returns shares ->
     Compact.getBatchSize shares = outputSize) ->
  -1 ∈ intersectionMap ->
  ∃ what,
    (Compact.compactData myRole numConversionsPerUser intersectionMap
       plaintextData trace).1 = Compact.Throws what.
Proof.
  intros Hmax Hcontract Hin.
  destruct (Compact.compactData myRole numConversionsPerUser intersectionMap
              plaintextData trace).1 as [[pub par]|what] eqn:Hres;
    [|by exists what].
  exfalso.
  destruct (compactData_result _ _ _ _ _ _ _ Hres) as (Hex & Hpub & Hpar).
  rewrite expectedIntersectionSizeOf_count in Hpub, Hpar by done.
  pose proof (matchedCount_bounds intersectionMap) as Hb.
  assert (Hwrap : wrap_unsigned 64 (Compact.matchedCount intersectionMap)
                  = Compact.matchedCount intersectionMap).
  { int_consts. apply Z.mod_small. lia. }
  rewrite Hwrap in Hpub, Hpar.
  assert (Hlt : (length (filter (λ ele : Z, ele ≠ (-1)%Z) intersectionMap)
                 < length intersectionMap)%nat).
  { eapply length_filter_lt; [exact Hin|]. intros Hne. by apply Hne. }
  unfold Compact.matchedCount in Hpub, Hpar.
  unfold Compact.exchangerReturns in Hex.
  destruct myRole; destruct Hex as [H1 H2].
  - apply Hcontract in H1. lia.
  - apply Hcontract in H2. lia.
Qed.

Lemma compactData_throws_on_unmatched_witness :
  ∃ what,
    (Compact.compactData (collaborators := Compact.echoCollaborators)
       PUBLISHER 2 [0; -1; 1] [[]; []; []] []).1 = Compact.Throws what.
Proof.
  apply (@compactData_throws_on_unmatched Z Compact.echoCollaborators
           PUBLISHER 2 [0; -1; 1] [[]; []; []] []).
  - int_consts. simpl. lia.
  - intros outputSize shares H. simpl in H. by injection H as <-.
  - rewrite !elem_of_cons. right. by left.
Defined.

(** ** Decoding shares *)

Lemma range_high_bits (w x n : Z) :
  0 <= w -> 0 <= x < 2 ^ w -> w <= n -> Z.testbit x n = false.
Proof.
  intros Hw Hx Hn. rewrite <- (Z.mod_small x (2 ^ w)) by done.
  apply Z.mod_pow2_bits_high. lia.
Qed.

Lemma high_bits_range (w x : Z) :
  0 <= w -> (∀ n, w <= n -> Z.testbit x n = false) -> 0 <= x < 2 ^ w.
Proof.
  intros Hw Hbits.
  assert (Hx : x = x mod 2 ^ w).
  { apply Z.bits_inj'. intros n Hn.
    destruct (Z.lt_ge_cases n w).
    - by rewrite Z.mod_pow2_bits_low.
    - rewrite Z.mod_pow2_bits_high by lia. by apply Hbits. }
  rewrite Hx. apply Z.mod_pos_bound. by apply Z.pow_pos_nonneg.
Qed.

Lemma lxor_range (w x y : Z) :
  0 <= w -> 0 <= x < 2 ^ w -> 0 <= y < 2 ^ w -> 0 <= Z.lxor x y < 2 ^ w.
Proof.
  intros Hw Hx Hy. apply high_bits_range; [done|]. intros n Hn.
  by rewrite Z.lxor_spec, !(range_high_bits w) by done.
Qed.

Lemma bool_of_Z_testbit (x k : Z) :
  0 <= k -> Decode.bool_of_Z (Z.land (Z.shiftr x k) 1) = Z.testbit x k.
Proof.
  intros Hk. unfold Decode.bool_of_Z.
  change 1 with (Z.ones 1). rewrite Z.land_ones by lia.
  change (2 ^ 1) with 2. rewrite Zmod_odd.
  rewrite <- Z.bit0_odd, Z.shiftr_spec by lia. rewrite Z.add_0_l.
  by destruct (Z.testbit x k).
Qed.

Lemma bool_of_Z_bit0 (x : Z) :
  Decode.bool_of_Z (Z.land x 1) = Z.testbit x 0.
Proof. rewrite <- (bool_of_Z_testbit x 0) by lia. by rewrite Z.shiftr_0_r. Qed.

(** One step of the [reconstructFromBytes] loop on the exclusive or of two
    runs. *)
Lemma lor_shift_lxor (s va vb ba bb : Z) :
  0 <= s -> 0 <= va < 2 ^ s -> 0 <= vb < 2 ^ s ->
  Z.lor (Z.lxor va vb) (Z.shiftl (Z.lxor ba bb) s)
  = Z.lxor (Z.lor va (Z.shiftl ba s)) (Z.lor vb (Z.shiftl bb s)).
Proof.
  intros Hs Hva Hvb. apply Z.bits_inj'. intros n Hn.
  rewrite !Z.lxor_spec, !Z.lor_spec, Z.lxor_spec.
  destruct (Z.lt_ge_cases n s).
  - rewrite !Z.shiftl_spec_low by done. by rewrite !orb_false_r.
  - rewrite !Z.shiftl_spec by done. rewrite Z.lxor_spec.
    by rewrite !(range_high_bits s) by done.
Qed.

Lemma lor_shift_range (s v b : Z) :
  0 <= s -> 0 <= v < 2 ^ s -> 0 <= b < 256 ->
  0 <= Z.lor v (Z.shiftl b s) < 2 ^ (s + 8).
Proof.
  intros Hs Hv Hb. apply high_bits_range; [lia|]. intros n Hn.
  rewrite Z.lor_spec, Z.shiftl_spec by lia.
  rewrite (range_high_bits s v) by (done || lia).
  by rewrite (range_high_bits 8 b) by (done || lia).
Qed.

(** The loop of [reconstructFromBytes] on the exclusive or of two
    buffers. *)
Lemma reconstruct_loop_xor (a b : list Z) (offset m k : nat) (va vb ra rb : Z) :
  Forall is_uint8 a -> Forall is_uint8 b ->
  0 <= va < 2 ^ (8 * Z.of_nat k) -> 0 <= vb < 2 ^ (8 * Z.of_nat k) ->
  for_each (λ val i, x ← a !! (offset + i)%nat;
                     Some (Z.lor val (Z.shiftl x (8 * Z.of_nat i))))
           (seq k m) va = Some ra ->
  for_each (λ val i, x ← b !! (offset + i)%nat;
                     Some (Z.lor val (Z.shiftl x (8 * Z.of_nat i))))
           (seq k m) vb = Some rb ->
  for_each (λ val i, x ← Shares.xorBytes a b !! (offset + i)%nat;
                     Some (Z.lor val (Z.shiftl x (8 * Z.of_nat i))))
           (seq k m) (Z.lxor va vb) = Some (Z.lxor ra rb)
  ∧ 0 <= ra < 2 ^ (8 * Z.of_nat (k + m))
  ∧ 0 <= rb < 2 ^ (8 * Z.of_nat (k + m)).
Proof.
  intros Ha Hb. revert k va vb.
  induction m as [|m IH]; intros k va vb Hva Hvb Hra Hrb.
  - injection Hra as <-. injection Hrb as <-. rewrite Nat.add_0_r. done.
  - cbn [seq] in *. rewrite for_each_cons in *.
    destruct (a !! (offset + k)%nat) as [x|] eqn:Hx; [|done].
    destruct (b !! (offset + k)%nat) as [y|] eqn:Hy; [|done].
    cbn [mbind option_bind] in Hra, Hrb.
    assert (Hxy : Shares.xorBytes a b !! (offset + k)%nat
                  = Some (Z.lxor x y)).
    { unfold Shares.xorBytes. rewrite lookup_zip_with, Hx, Hy. done. }
    rewrite Hxy. cbn [mbind option_bind].
    assert (Hxr : is_uint8 x) by (rewrite Forall_lookup in Ha; by eapply Ha).
    assert (Hyr : is_uint8 y) by (rewrite Forall_lookup in Hb; by eapply Hb).
    unfold is_uint8 in Hxr, Hyr.
    rewrite lor_shift_lxor by (done || lia).
    assert (Hva' : 0 <= Z.lor va (Z.shiftl x (8 * Z.of_nat k))
                   < 2 ^ (8 * Z.of_nat (S k))).
    { replace (8 * Z.of_nat (S k)) with (8 * Z.of_nat k + 8) by lia.
      apply lor_shift_range; (done || lia). }
    assert (Hvb' : 0 <= Z.lor vb (Z.shiftl y (8 * Z.of_nat k))
                   < 2 ^ (8 * Z.of_nat (S k))).
    { replace (8 * Z.of_nat (S k)) with (8 * Z.of_nat k + 8) by lia.
      apply lor_shift_range; (done || lia). }
    destruct (IH (S k) _ _ Hva' Hvb' Hra Hrb) as (Hrun & Hrar & Hrbr).
    split; [done|].
    replace (k + S m)%nat with (S k + m)%nat by lia. done.
Qed.

(** Conversion to a signed type extends bit [w - 1]. *)
Lemma wrap_signed_testbit (w r n : Z) :
  0 < w -> 0 <= r < 2 ^ w -> 0 <= n ->
  Z.testbit (wrap_signed w r) n = Z.testbit r (Z.min n (w - 1)).
Proof.
  intros Hw Hr Hn. unfold wrap_signed.
  assert (Hpow : 2 ^ w = 2 * 2 ^ (w - 1)).
  { rewrite <- Z.pow_succ_r by lia. f_equal. lia. }
  assert (HP : 0 < 2 ^ (w - 1)) by (apply Z.pow_pos_nonneg; lia).
  destruct (Z.lt_ge_cases r (2 ^ (w - 1))) as [Hlow|Hhigh].
  - rewrite Z.mod_small by lia.
    replace (r + 2 ^ (w - 1) - 2 ^ (w - 1)) with r by lia.
    destruct (Z.lt_ge_cases n (w - 1)); [by rewrite Z.min_l by lia|].
    rewrite Z.min_r by lia.
    by rewrite !(range_high_bits (w - 1) r) by (done || lia).
  - assert (Hmod : (r + 2 ^ (w - 1)) mod 2 ^ w = r - 2 ^ (w - 1)).
    { symmetry. apply (Z.mod_unique _ _ 1); lia. }
    rewrite Hmod.
    assert (Htop : Z.testbit r (w - 1) = true).
    { apply Z.testbit_true; [lia|].
      assert (Hq : r / 2 ^ (w - 1) = 1)
        by (symmetry; apply (Z.div_unique _ _ 1 (r - 2 ^ (w - 1))); lia).
      by rewrite Hq. }
    destruct (Z.lt_ge_cases n w) as [Hin|Hout].
    + rewrite <- (Z.mod_pow2_bits_low _ w) by done.
      replace (r - 2 ^ (w - 1) - 2 ^ (w - 1)) with (r + (-1) * 2 ^ w) by lia.
      rewrite Z.mod_add by lia. rewrite Z.mod_pow2_bits_low by done.
      destruct (Z.lt_ge_cases n (w - 1)); [by rewrite Z.min_l by lia|].
      rewrite Z.min_r by lia. by replace n with (w - 1) by lia.
    + rewrite Z.min_r by lia. rewrite Htop.
      apply Z.bits_above_log2_neg; [lia|].
      destruct (Z.eq_dec (Z.pred (- (r - 2 ^ (w - 1) - 2 ^ (w - 1)))) 0)
        as [->|Hnz]; [simpl; lia|].
      assert (Z.log2 (Z.pred (- (r - 2 ^ (w - 1) - 2 ^ (w - 1)))) < w - 1);
        [|lia].
      apply Z.log2_lt_pow2; lia.
Qed.

Lemma convert_lxor (T : IntType) (x y : Z) :
  0 <= x < 2 ^ (8 * Z.of_nat (sizeof T)) ->
  0 <= y < 2 ^ (8 * Z.of_nat (sizeof T)) ->
  convert T (Z.lxor x y) = Z.lxor (convert T x) (convert T y).
Proof.
  intros Hx Hy.
  pose proof (lxor_range (8 * Z.of_nat (sizeof T)) x y ltac:(lia) Hx Hy)
    as Hxy.
  destruct T; cbn [convert sizeof] in *.
  - unfold to_uint32, wrap_unsigned.
    change (8 * Z.of_nat 4) with 32 in *. by rewrite !Z.mod_small by done.
  - unfold to_int32. change (8 * Z.of_nat 4) with 32 in *.
    apply Z.bits_inj'. intros n Hn.
    rewrite Z.lxor_spec, !wrap_signed_testbit by (done || lia).
    by rewrite Z.lxor_spec.
  - unfold to_int64. change (8 * Z.of_nat 8) with 64 in *.
    apply Z.bits_inj'. intros n Hn.
    rewrite Z.lxor_spec, !wrap_signed_testbit by (done || lia).
    by rewrite Z.lxor_spec.
Qed.

(** [reconstructFromBytes] on the exclusive or of two buffers of bytes. *)
Lemma reconstructFromBytes_xor (T : IntType) (a b : list Z) (offset : nat)
    (ra rb : Z) :
  Forall is_uint8 a -> Forall is_uint8 b ->
  reconstructFromBytes T a offset = Some ra ->
  reconstructFromBytes T b offset = Some rb ->
  reconstructFromBytes T (Shares.xorBytes a b) offset = Some (Z.lxor ra rb).
Proof.
  unfold reconstructFromBytes. intros Ha Hb Hra Hrb.
  destruct (for_each _ (seq 0 (sizeof T)) 0) as [va|] eqn:Hva in Hra; [|done].
  destruct (for_each _ (seq 0 (sizeof T)) 0) as [vb|] eqn:Hvb in Hrb; [|done].
  cbn in Hra, Hrb. injection Hra as <-. injection Hrb as <-.
  destruct (reconstruct_loop_xor a b offset (sizeof T) 0 0 0 va vb Ha Hb
              ltac:(simpl; lia) ltac:(simpl; lia) Hva Hvb)
    as (Hrun & Hvar & Hvbr).
  change (Z.lxor 0 0) with 0 in Hrun. rewrite Hrun. cbn.
  f_equal. by apply convert_lxor.
Qed.

Lemma bool_field_xor (fa fb k : Z) :
  0 <= k ->
  Decode.bool_of_Z (Z.land (Z.shiftr (Z.lxor fa fb) k) 1)
  = xorb (Decode.bool_of_Z (Z.land (Z.shiftr fa k) 1))
         (Decode.bool_of_Z (Z.land (Z.shiftr fb k) 1)).
Proof. intros Hk. by rewrite !bool_of_Z_testbit, Z.lxor_spec by done. Qed.

Lemma bool_bit0_xor (fa fb : Z) :
  Decode.bool_of_Z (Z.land (Z.lxor fa fb) 1)
  = xorb (Decode.bool_of_Z (Z.land fa 1)) (Decode.bool_of_Z (Z.land fb 1)).
Proof. by rewrite !bool_of_Z_bit0, Z.lxor_spec. Qed.

Lemma decodePublisherRow_xor (a b : list Z) (ra rb : PublisherRow) :
  Forall is_uint8 a -> Forall is_uint8 b ->
  Decode.decodePublisherRow a = Some ra ->
  Decode.decodePublisherRow b = Some rb ->
  Decode.decodePublisherRow (Shares.xorBytes a b)
  = Some (Shares.xorPublisherRow ra rb).
Proof.
  unfold Decode.decodePublisherRow. intros Ha Hb Hra Hrb.
  destruct (a !! 0%nat) as [fa|] eqn:Hfa; [|done].
  destruct (b !! 0%nat) as [fb|] eqn:Hfb; [|done].
  cbn [mbind option_bind] in Hra, Hrb.
  destruct (reconstructFromBytes UInt32 a 1) as [ta|] eqn:Hta; [|done].
  destruct (reconstructFromBytes UInt32 b 1) as [tb|] eqn:Htb; [|done].
  cbn [mbind option_bind] in Hra, Hrb.
  injection Hra as <-. injection Hrb as <-.
  assert (H0 : Shares.xorBytes a b !! 0%nat = Some (Z.lxor fa fb)).
  { unfold Shares.xorBytes. by rewrite lookup_zip_with, Hfa, Hfb. }
  rewrite H0. cbn [mbind option_bind].
  rewrite (reconstructFromBytes_xor UInt32 a b 1 ta tb) by done.
  cbn [mbind option_bind]. unfold Shares.xorPublisherRow. cbn.
  by rewrite bool_bit0_xor, !bool_field_xor by lia.
Qed.

Lemma decodeConversionRow_xor (a b : list Z) (j : nat)
    (ca cb : PartnerConversionRow) :
  Forall is_uint8 a -> Forall is_uint8 b ->
  Decode.decodeConversionRow a j = Some ca ->
  Decode.decodeConversionRow b j = Some cb ->
  Decode.decodeConversionRow (Shares.xorBytes a b) j
  = Some (Shares.xorConversionRow ca cb).
Proof.
  unfold Decode.decodeConversionRow. cbv zeta. intros Ha Hb Hca Hcb.
  destruct (reconstructFromBytes UInt32 a (5 + _)) as [ta|] eqn:Hta; [|done].
  destruct (reconstructFromBytes UInt32 b (5 + _)) as [tb|] eqn:Htb; [|done].
  cbn [mbind option_bind] in Hca, Hcb.
  destruct (reconstructFromBytes UInt32 a (9 + _)) as [ha|] eqn:Hha; [|done].
  destruct (reconstructFromBytes UInt32 b (9 + _)) as [hb|] eqn:Hhb; [|done].
  cbn [mbind option_bind] in Hca, Hcb.
  destruct (reconstructFromBytes Int32 a (13 + _)) as [va|] eqn:Hva; [|done].
  destruct (reconstructFromBytes Int32 b (13 + _)) as [vb|] eqn:Hvb; [|done].
  cbn [mbind option_bind] in Hca, Hcb.
  destruct (reconstructFromBytes Int64 a (17 + _)) as [sa|] eqn:Hsa; [|done].
  destruct (reconstructFromBytes Int64 b (17 + _)) as [sb|] eqn:Hsb; [|done].
  cbn [mbind option_bind] in Hca, Hcb.
  injection Hca as <-. injection Hcb as <-.
  rewrite (reconstructFromBytes_xor UInt32 a b _ ta tb Ha Hb Hta Htb).
  cbn [mbind option_bind].
  rewrite (reconstructFromBytes_xor UInt32 a b _ ha hb Ha Hb Hha Hhb).
  cbn [mbind option_bind].
  rewrite (reconstructFromBytes_xor Int32 a b _ va vb Ha Hb Hva Hvb).
  cbn [mbind option_bind].
  rewrite (reconstructFromBytes_xor Int64 a b _ sa sb Ha Hb Hsa Hsb).
  done.
Qed.

(** X14. Decoding commutes with the exclusive or of shares: if two
    buffers of bytes decode to two rows, the byte-wise exclusive or of the
    buffers decodes to the field-wise exclusive or of the rows, for the
    publisher fields and for the partner fields and conversions, the signed
    fields included. *)
Theorem decode_commutes_with_xor (numConversionsPerUser : nat)
    (a b : list Z) :
  Forall is_uint8 a -> Forall is_uint8 b ->
  (∀ ra rb,
     Decode.decodePublisherRow a = Some ra ->
     Decode.decodePublisherRow b = Some rb ->
     Decode.decodePublisherRow (Shares.xorBytes a b)
     = Some (Shares.xorPublisherRow ra rb))
  ∧ (∀ qa qb csa csb,
       Decode.decodePartnerRow numConversionsPerUser a = Some (qa, csa) ->
       Decode.decodePartnerRow numConversionsPerUser b = Some (qb, csb) ->
       Decode.decodePartnerRow numConversionsPerUser (Shares.xorBytes a b)
       = Some (Shares.xorPartnerRow qa qb,
               zip_with Shares.xorConversionRow csa csb)).
Proof.
  intros Ha Hb. split; [intros ra rb; by apply decodePublisherRow_xor|].
  unfold Decode.decodePartnerRow. intros qa qb csa csb Hqa Hqb.
  destruct (a !! 0%nat) as [fa|] eqn:Hfa; [|done].
  destruct (b !! 0%nat) as [fb|] eqn:Hfb; [|done].
  cbn [mbind option_bind] in Hqa, Hqb.
  destruct (reconstructFromBytes UInt32 a 1) as [ga|] eqn:Hga; [|done].
  destruct (reconstructFromBytes UInt32 b 1) as [gb|] eqn:Hgb; [|done].
  cbn [mbind option_bind] in Hqa, Hqb.
  destruct (mapM (Decode.decodeConversionRow a) _) as [la|] eqn:Hla; [|done].
  destruct (mapM (Decode.decodeConversionRow b) _) as [lb|] eqn:Hlb; [|done].
  cbn [mbind option_bind] in Hqa, Hqb.
  injection Hqa as <- <-. injection Hqb as <- <-.
  assert (H0 : Shares.xorBytes a b !! 0%nat = Some (Z.lxor fa fb)).
  { unfold Shares.xorBytes. by rewrite lookup_zip_with, Hfa, Hfb. }
  rewrite H0. cbn [mbind option_bind].
  rewrite (reconstructFromBytes_xor UInt32 a b 1 ga gb) by done.
  cbn [mbind option_bind].
  assert (Hm : mapM (Decode.decodeConversionRow (Shares.xorBytes a b))
                 (seq 0 numConversionsPerUser)
               = Some (zip_with Shares.xorConversionRow la lb)).
  { pose proof (mapM_seq_length _ _ _ Hla) as Hna.
    pose proof (mapM_seq_length _ _ _ Hlb) as Hnb.
    apply mapM_Some_2. apply Forall2_same_length_lookup_2.
    - rewrite length_seq, length_zip_with. lia.
    - intros i j c Hj Hc. apply lookup_seq in Hj as [-> _]. cbn [Nat.add].
      apply lookup_zip_with_Some in Hc as (ca & cb & -> & Hca & Hcb).
      apply decodeConversionRow_xor; [done | done | |].
      + by eapply mapM_seq_lookup.
      + by eapply mapM_seq_lookup. }
  rewrite Hm. cbn [mbind option_bind]. unfold Shares.xorPartnerRow. cbn.
  by rewrite bool_bit0_xor.
Qed.

Lemma decode_commutes_with_xor_witness :
  Decode.decodePublisherRow
    (Shares.xorBytes [13; 200; 0; 0; 0] [6; 100; 1; 0; 255])
  = Some (Shares.xorPublisherRow
            {| breakdownId := true; controlPopulation := false;
               isValidOpportunityTimestamp := true; testReach := true;
               opportunityTimestamp := 200 |}
            {| breakdownId := false; controlPopulation := true;
               isValidOpportunityTimestamp := true; testReach := false;
               opportunityTimestamp := 4278190436 |}).
Proof.
  destruct (decode_commutes_with_xor 0 [13; 200; 0; 0; 0]
              [6; 100; 1; 0; 255]) as [Hpublisher _].
  - repeat constructor; unfold is_uint8; lia.
  - repeat constructor; unfold is_uint8; lia.
  - apply Hpublisher; vm_compute; reflexivity.
Defined.

Example decode_xor_signed_field :
  Decode.decodeConversionRow
    (Shares.xorBytes (replicate 13 0 ++ [255; 255; 255; 255] ++ replicate 8 0)
                     (replicate 13 0 ++ [5; 0; 0; 128] ++ replicate 8 0)) 0
  = Some {| purchaseTimestamp := 0; thresholdTimestamp := 0;
            purchaseValue := Z.lxor (-1) (-2147483643);
            purchaseValueSquared := 0 |}
  ∧ Z.lxor (-1) (-2147483643) = 2147483642.
Proof. vm_compute. done. Qed.
